(** * Envelope: sealing and opening of hybrid-encryption envelopes

    A shallow embedding of [cpp/src/util/crypto/envelope.cpp] (XtreemFS).

    The file embeds [Envelope::Seal] and the three overloads of
    [Envelope::Open].  The OpenSSL routines they call ([EVP_SealInit],
    [EVP_OpenUpdate], ...) are not part of the repository: they are the
    operations of a [Provider], and what the envelope code relies on is
    stated as named laws of a provider.  [Toy] is a small executable provider
    (a padding block "cipher" and tagged key wrapping) that satisfies the
    laws; it serves for concrete runs.

    Conventions
    - [std::vector<unsigned char>] and asio buffers are lists of bytes; the
      capacity of a buffer is the length of the list.
    - A pointer write of [src] at [buf.data() + off] is [write_at buf off src];
      a write past the end of the buffer is undefined behaviour and ends the
      run with the outcome [Undefined].
    - [assert] is live: a failed assertion ends the run with [Aborted].
    - Sizes and lengths are natural numbers, OpenSSL's [int] status codes are
      in [Z].  Buffer sizes are assumed to fit OpenSSL's [int] lengths.
    - Every provider call is recorded in the [calls] log of the world, so
      that "no provider step was attempted" is a statement about the log. *)

From Stdlib Require Import String Ascii ZArith Lia Bool Arith List.
From Stdlib Require Import Strings.Byte.
Import ListNotations.

(* ================================================================== *)
(** * Bytes, vectors and raw buffers *)
(* ================================================================== *)

Abbreviation uchar := Byte.byte.
Abbreviation bytes := (list Byte.byte).

(** [std::vector<T>::resize(n)]: the first [n] elements are kept, missing
    ones are value-initialised ([d]). *)
Definition resize {A : Type} (d : A) (n : nat) (v : list A) : list A :=
  firstn n v ++ repeat d (n - length v).

(** [std::vector<T>::at(i)]: bounds-checked access. *)
Definition at_ {A : Type} (v : list A) (i : nat) : option A := nth_error v i.

(** Assignment through the reference returned by [v.at(i)]. *)
Fixpoint set_at {A : Type} (v : list A) (i : nat) (x : A) : list A :=
  match v, i with
  | [], _ => []
  | _ :: v', O => x :: v'
  | y :: v', S i' => y :: set_at v' i' x
  end.

(** The memory effect of a callee that stores [src] at [buf.data() + off]:
    [None] when the store does not fit in the buffer. *)
Definition write_at (buf : bytes) (off : nat) (src : bytes) : option bytes :=
  if off + length src <=? length buf
  then Some (firstn off buf ++ src ++ skipn (off + length src) buf)
  else None.

(** The memory effect of a callee that stores [srcs[i]] at [ptrs[i]] for
    every [i], where [ptrs[i]] points to the start of [bufs[i]]. *)
Fixpoint write_each (bufs : list bytes) (srcs : list bytes) {struct srcs}
  : option (list bytes) :=
  match srcs, bufs with
  | [], _ => Some bufs
  | _ :: _, [] => None
  | s :: srcs', b :: bufs' =>
      match write_at b 0 s, write_each bufs' srcs' with
      | Some b', Some rest => Some (b' :: rest)
      | _, _ => None
      end
  end.

(** The vectors of [v], resized to [sizes] position by position. *)
Fixpoint resize_all (sizes : list nat) (v : list bytes) : list bytes :=
  match sizes, v with
  | n :: sizes', b :: v' => resize x00 n b :: resize_all sizes' v'
  | _, _ => []
  end.

(* ================================================================== *)
(** * Outcomes of a call, and the monad of the embedding *)
(* ================================================================== *)

Inductive exn : Type :=
| OpenSSLError (error_msg : string)   (* thrown by LogAndThrowOpenSSLError *)
| out_of_range.                       (* thrown by std::vector::at *)

Inductive outcome (A : Type) : Type :=
| Returned (a : A)     (* normal return *)
| Thrown (e : exn)     (* a C++ exception leaves the call *)
| Aborted              (* assert() failed: the process is aborted *)
| Undefined.           (* a store outside a buffer *)

Arguments Returned {A} a.
Arguments Thrown {A} e.
Arguments Aborted {A}.
Arguments Undefined {A}.

(** A computation over a state [S]: the state at the end of the run is kept
    also when the run fails, since the caller's objects keep what was
    written to them. *)
Definition M (S A : Type) : Type := S -> outcome A * S.

Definition ret {S A : Type} (a : A) : M S A := fun s => (Returned a, s).

Definition bind {S A B : Type} (m : M S A) (k : A -> M S B) : M S B :=
  fun s =>
    match m s with
    | (Returned a, s') => k a s'
    | (Thrown e, s') => (Thrown e, s')
    | (Aborted, s') => (Aborted, s')
    | (Undefined, s') => (Undefined, s')
    end.

Definition throw {S A : Type} (e : exn) : M S A := fun s => (Thrown e, s).
Definition undefined {S A : Type} : M S A := fun s => (Undefined, s).
Definition get {S : Type} : M S S := fun s => (Returned s, s).
Definition put {S : Type} (s : S) : M S unit := fun _ => (Returned tt, s).
Definition modify {S : Type} (f : S -> S) : M S unit := fun s => (Returned tt, f s).

(** [assert(b)] *)
Definition assert {S : Type} (b : bool) : M S unit :=
  fun s => if b then (Returned tt, s) else (Aborted, s).

Declare Scope envelope_scope.
Delimit Scope envelope_scope with envelope.
Notation "x <- m ;; k" := (bind m (fun x => k))
  (at level 100, m at next level, right associativity) : envelope_scope.
Notation "' p <- m ;; k" := (bind m (fun x => match x with p => k end))
  (at level 100, p pattern, m at next level, right associativity) : envelope_scope.
Notation "m ;; k" := (bind m (fun _ => k))
  (at level 100, right associativity) : envelope_scope.
Local Open Scope envelope_scope.

(** [for (int i = from; i < from + n; i++) body(i)] *)
Fixpoint for_ {S : Type} (from n : nat) (body : nat -> M S unit) : M S unit :=
  match n with
  | O => ret tt
  | Datatypes.S n' => body from ;; for_ (Datatypes.S from) n' body
  end.

(** [BOOST_SCOPE_EXIT]: the exit block runs when the scope is left by a
    return or by an exception; nothing is unwound when the process aborts. *)
Definition scope_exit {S A : Type} (on_exit : M S unit) (body : M S A) : M S A :=
  fun s =>
    match body s with
    | (Returned a, s') => (on_exit ;; ret a) s'
    | (Thrown e, s') => (on_exit ;; throw e) s'
    | r => r
    end.

(** Modelled from the spec: [util/crypto/openssl_error.h] is not among the
    sources.  [LogAndThrowOpenSSLError] raises the one failure type of the
    component, carrying the message of the caller (empty by default); the
    spec tells two kinds apart by it, [UnknownCipher] and
    [CryptoOperationFailed].  The provider's diagnostic text that the
    function appends is left out. *)
Definition LogAndThrowOpenSSLError {S A : Type} (error_msg : string) : M S A :=
  throw (OpenSSLError error_msg).

Definition UnknownCipher (where_ cipher_name : string) : exn :=
  OpenSSLError (where_ ++ ": Unknown cipher '" ++ cipher_name ++ "'")%string.

Definition CryptoOperationFailed : exn := OpenSSLError "".

(* ================================================================== *)
(** * The cipher provider (OpenSSL's EVP interface) *)
(* ================================================================== *)

(** The EVP routines the envelope calls.  A routine that stores into a
    caller's buffer returns the bytes it stores (its [int* outl] is their
    number); status codes are OpenSSL's.  Only [EVP_SealInit] draws from the
    random generator. *)
Class Provider : Type := {
  RAND : Type;
  EVP_CIPHER : Type;
  EVP_PKEY : Type;
  EVP_CIPHER_CTX : Type;
  EVP_get_cipherbyname : string -> option EVP_CIPHER;
  EVP_CIPHER_iv_length : EVP_CIPHER -> nat;
  EVP_CIPHER_block_size : EVP_CIPHER -> nat;
  EVP_PKEY_size : EVP_PKEY -> nat;
  (* [EVP_PKEY_pair priv pub]: [priv] holds the private half of [pub] *)
  EVP_PKEY_pair : EVP_PKEY -> EVP_PKEY -> bool;
  EVP_CIPHER_CTX_new : option EVP_CIPHER_CTX;
  (* ctx, type, pubk[], rand |-> status, ctx, ek[], iv, rand *)
  EVP_SealInit : EVP_CIPHER_CTX -> EVP_CIPHER -> list EVP_PKEY -> RAND ->
                 Z * EVP_CIPHER_CTX * list bytes * bytes * RAND;
  (* ctx, in |-> status, ctx, out *)
  EVP_SealUpdate : EVP_CIPHER_CTX -> bytes -> Z * EVP_CIPHER_CTX * bytes;
  EVP_SealFinal : EVP_CIPHER_CTX -> Z * bytes;
  (* ctx, type, ek, iv, priv |-> status, ctx *)
  EVP_OpenInit : EVP_CIPHER_CTX -> EVP_CIPHER -> bytes -> bytes -> EVP_PKEY ->
                 Z * EVP_CIPHER_CTX;
  EVP_OpenUpdate : EVP_CIPHER_CTX -> bytes -> Z * EVP_CIPHER_CTX * bytes;
  EVP_OpenFinal : EVP_CIPHER_CTX -> Z * bytes
}.

(** The provider routines a run went through, in order. *)
Inductive call : Type :=
| call_CTX_new | call_CTX_free
| call_SealInit | call_SealUpdate | call_SealFinal
| call_OpenInit | call_OpenUpdate | call_OpenFinal.

Section Envelope.

Context {P : Provider}.

(** Modelled from the spec: [util/crypto/asym_key.h] is not among the
    sources.  An [AsymKey] is an opaque handle of a public or a private key;
    [get_key] gives the provider's key. *)
Record AsymKey : Type := { get_key : EVP_PKEY }.

(** What lies outside the arguments of a call: the random generator and the
    log of provider calls. *)
Record World : Type := { rng : RAND; calls : list call }.

(** The state of a run: the world and the caller's output object(s). *)
Record St (Out : Type) : Type := { world : World; out : Out }.

Arguments world {Out} s.
Arguments out {Out} s.

Definition log {Out : Type} (c : call) : M (St Out) unit :=
  modify (fun s => {| world := {| rng := rng (world s); calls := calls (world s) ++ [c] |};
                      out := out s |}).

Definition set_rng {Out : Type} (r : RAND) : M (St Out) unit :=
  modify (fun s => {| world := {| rng := r; calls := calls (world s) |}; out := out s |}).

Definition get_out {Out : Type} : M (St Out) Out := s <- get ;; ret (out s).

Definition set_out {Out : Type} (o : Out) : M (St Out) unit :=
  modify (fun s => {| world := world s; out := o |}).

(** [ctx = EVP_CIPHER_CTX_new()] *)
Definition ctx_new {Out : Type} : M (St Out) (option EVP_CIPHER_CTX) :=
  log call_CTX_new ;; ret EVP_CIPHER_CTX_new.

(** [EVP_CIPHER_CTX_free(ctx)] *)
Definition ctx_free {Out : Type} : M (St Out) unit := log call_CTX_free.

(* ------------------------------------------------------------------ *)
(** ** Envelope::Seal *)
(* ------------------------------------------------------------------ *)

(** The three output parameters of [Seal]. *)
Record SealOut : Type := {
  encrypted_keys : list bytes;
  iv : bytes;
  ciphertext : bytes
}.

Definition set_encrypted_keys (v : list bytes) : M (St SealOut) unit :=
  o <- get_out ;; set_out {| encrypted_keys := v; iv := iv o; ciphertext := ciphertext o |}.
Definition set_iv (v : bytes) : M (St SealOut) unit :=
  o <- get_out ;; set_out {| encrypted_keys := encrypted_keys o; iv := v; ciphertext := ciphertext o |}.
Definition set_ciphertext (v : bytes) : M (St SealOut) unit :=
  o <- get_out ;; set_out {| encrypted_keys := encrypted_keys o; iv := iv o; ciphertext := v |}.

(** [encrypted_keys->at(i).resize(n)] *)
Definition resize_key_at (i n : nat) : M (St SealOut) unit :=
  o <- get_out ;;
  match at_ (encrypted_keys o) i with
  | None => throw out_of_range
  | Some b => set_encrypted_keys (set_at (encrypted_keys o) i (resize x00 n b))
  end.

(** A store of [src] at [ciphertext->data() + off]. *)
Definition store_ciphertext (off : nat) (src : bytes) : M (St SealOut) unit :=
  o <- get_out ;;
  match write_at (ciphertext o) off src with
  | None => undefined
  | Some b => set_ciphertext b
  end.

(** The call of [EVP_SealInit] with the pointer arrays of [Seal]: the wrapped
    keys go to the starts of the buffers of [encrypted_keys], the IV to
    [iv->data()]; [encrypted_keys_len] receives the lengths.  An entry of
    [encrypted_keys_len] that the provider did not set is read as 0 by the
    closing loop of [Seal]; a successful [EVP_SealInit] sets them all. *)
Definition seal_init (ctx : EVP_CIPHER_CTX) (cipher : EVP_CIPHER)
    (pub_keys_p_array : list EVP_PKEY) : M (St SealOut) (Z * EVP_CIPHER_CTX * list nat) :=
  log call_SealInit ;;
  s <- get ;;
  let '(r, ctx', ek, ivb, rnd) :=
    EVP_SealInit ctx cipher pub_keys_p_array (rng (world s)) in
  set_rng rnd ;;
  o <- get_out ;;
  match write_each (encrypted_keys o) ek, write_at (iv o) 0 ivb with
  | Some eks, Some ivv =>
      set_out {| encrypted_keys := eks; iv := ivv; ciphertext := ciphertext o |} ;;
      ret (r, ctx', map (@length uchar) ek)
  | _, _ => undefined
  end.

Definition seal_update (ctx : EVP_CIPHER_CTX) (off : nat) (input : bytes)
  : M (St SealOut) (Z * EVP_CIPHER_CTX * nat) :=
  log call_SealUpdate ;;
  let '(r, ctx', o) := EVP_SealUpdate ctx input in
  store_ciphertext off o ;;
  ret (r, ctx', length o).

Definition seal_final (ctx : EVP_CIPHER_CTX) (off : nat) : M (St SealOut) (Z * nat) :=
  log call_SealFinal ;;
  let '(r, o) := EVP_SealFinal ctx in
  store_ciphertext off o ;;
  ret (r, length o).

Definition Seal (cipher_name : string) (pub_keys : list AsymKey) (plaintext : bytes)
  : M (St SealOut) unit :=
  (* assert(encrypted_keys && iv && ciphertext): the outputs exist *)
  assert (0 <? length pub_keys) ;;
  cipher <- match EVP_get_cipherbyname cipher_name with
            | None => LogAndThrowOpenSSLError
                        ("Envelope::Seal: Unknown cipher '" ++ cipher_name ++ "'")%string
            | Some c => ret c
            end ;;
  o <- get_out ;;
  set_encrypted_keys (resize [] (length pub_keys) (encrypted_keys o)) ;;
  o <- get_out ;;
  set_iv (resize x00 (EVP_CIPHER_iv_length cipher) (iv o)) ;;
  o <- get_out ;;
  set_ciphertext (resize x00 (length plaintext + EVP_CIPHER_block_size cipher) (ciphertext o)) ;;
  for_ 0 (length pub_keys) (fun i =>
    match nth_error pub_keys i with      (* pub_keys[i], unchecked *)
    | None => undefined
    | Some k => resize_key_at i (EVP_PKEY_size (get_key k))
    end) ;;
  (* the loop has set pub_keys_p_array[i] = pub_keys[i].get_key() *)
  let pub_keys_p_array := map get_key pub_keys in
  octx <- ctx_new ;;
  match octx with
  | None => LogAndThrowOpenSSLError ""
  | Some ctx =>
      scope_exit ctx_free (
        '(r, ctx, encrypted_keys_len) <- seal_init ctx cipher pub_keys_p_array ;;
        (if negb (Z.of_nat (length pub_keys) =? r)%Z
         then LogAndThrowOpenSSLError "" else ret tt) ;;
        '(r, ctx, len) <- seal_update ctx 0 plaintext ;;
        (if negb (1 =? r)%Z then LogAndThrowOpenSSLError "" else ret tt) ;;
        let ciphertext_len := len in
        '(r, len') <- seal_final ctx len ;;
        (if negb (1 =? r)%Z then LogAndThrowOpenSSLError "" else ret tt) ;;
        let ciphertext_len := ciphertext_len + len' in
        for_ 0 (length pub_keys) (fun i =>
          resize_key_at i (nth i encrypted_keys_len 0)) ;;
        o <- get_out ;;
        set_ciphertext (resize x00 ciphertext_len (ciphertext o)))
  end.

(* ------------------------------------------------------------------ *)
(** ** Envelope::Open *)
(* ------------------------------------------------------------------ *)

(** The output of [Open] is one byte buffer: the caller's pre-sized
    [mutable_buffer], or the caller's vector. *)

(** A store of [src] at [buffer_cast<unsigned char*>(plaintext) + off]. *)
Definition store_plaintext (off : nat) (src : bytes) : M (St bytes) unit :=
  o <- get_out ;;
  match write_at o off src with
  | None => undefined
  | Some b => set_out b
  end.

Definition open_init (ctx : EVP_CIPHER_CTX) (cipher : EVP_CIPHER)
    (encrypted_key iv_ : bytes) (priv : EVP_PKEY) : M (St bytes) (Z * EVP_CIPHER_CTX) :=
  log call_OpenInit ;;
  ret (EVP_OpenInit ctx cipher encrypted_key iv_ priv).

Definition open_update (ctx : EVP_CIPHER_CTX) (off : nat) (input : bytes)
  : M (St bytes) (Z * EVP_CIPHER_CTX * nat) :=
  log call_OpenUpdate ;;
  let '(r, ctx', o) := EVP_OpenUpdate ctx input in
  store_plaintext off o ;;
  ret (r, ctx', length o).

Definition open_final (ctx : EVP_CIPHER_CTX) (off : nat) : M (St bytes) (Z * nat) :=
  log call_OpenFinal ;;
  let '(r, o) := EVP_OpenFinal ctx in
  store_plaintext off o ;;
  ret (r, length o).

(** [int Open(const EVP_CIPHER* cipher, ..., const mutable_buffer& plaintext)] *)
Definition Open_cipher (cipher : EVP_CIPHER) (priv_key : AsymKey)
    (ciphertext_ encrypted_key iv_ : bytes) : M (St bytes) nat :=
  (* assert(cipher): the pointer is not null *)
  assert (length iv_ =? EVP_CIPHER_iv_length cipher) ;;
  octx <- ctx_new ;;
  match octx with
  | None => LogAndThrowOpenSSLError ""
  | Some ctx =>
      scope_exit ctx_free (
        '(r, ctx) <- open_init ctx cipher encrypted_key iv_ (get_key priv_key) ;;
        (if (0 =? r)%Z then LogAndThrowOpenSSLError "" else ret tt) ;;
        '(r, ctx, len) <- open_update ctx 0 ciphertext_ ;;
        (if negb (1 =? r)%Z then LogAndThrowOpenSSLError "" else ret tt) ;;
        let plaintext_len := len in
        '(r, len') <- open_final ctx len ;;
        (if negb (1 =? r)%Z then LogAndThrowOpenSSLError "" else ret tt) ;;
        let plaintext_len := plaintext_len + len' in
        plaintext <- get_out ;;
        assert (plaintext_len <=? length plaintext) ;;
        ret plaintext_len)
  end.

(** [int Open(const std::string& cipher_name, ..., const mutable_buffer& plaintext)]:
    the sized-buffer form. *)
Definition Open_buffer (cipher_name : string) (priv_key : AsymKey)
    (ciphertext_ encrypted_key iv_ : bytes) : M (St bytes) nat :=
  cipher <- match EVP_get_cipherbyname cipher_name with
            | None => LogAndThrowOpenSSLError
                        ("Envelope::Open: Unknown cipher '" ++ cipher_name ++ "'")%string
            | Some c => ret c
            end ;;
  Open_cipher cipher priv_key ciphertext_ encrypted_key iv_.

(** [void Open(const std::string& cipher_name, ..., std::vector<unsigned char>* plaintext)]:
    the allocating form. *)
Definition Open_vector (cipher_name : string) (priv_key : AsymKey)
    (ciphertext_ encrypted_key iv_ : bytes) : M (St bytes) unit :=
  (* assert(plaintext): the output exists *)
  cipher <- match EVP_get_cipherbyname cipher_name with
            | None => LogAndThrowOpenSSLError
                        ("Envelope: Unknown cipher '" ++ cipher_name ++ "'")%string
            | Some c => ret c
            end ;;
  plaintext <- get_out ;;
  set_out (resize x00 (length ciphertext_ + EVP_CIPHER_block_size cipher) plaintext) ;;
  plaintext_len <- Open_cipher cipher priv_key ciphertext_ encrypted_key iv_ ;;
  plaintext <- get_out ;;
  set_out (resize x00 plaintext_len plaintext).

End Envelope.

Arguments world {P Out} s.
Arguments out {P Out} s.

(* ================================================================== *)
(** * What the envelope relies on: laws of a provider *)
(* ================================================================== *)

Section Laws.

Context {P : Provider}.

(** A successful [EVP_SealInit] has wrapped the key for every public key and
    has produced an IV of the cipher's IV length. *)
Definition seal_init_complete : Prop :=
  forall ctx cipher pubk rnd st ctx' ek ivb rnd',
    EVP_SealInit ctx cipher pubk rnd = (st, ctx', ek, ivb, rnd') ->
    st = Z.of_nat (length pubk) ->
    length ek = length pubk /\ length ivb = EVP_CIPHER_iv_length cipher.



(** Decryption writes no more than the input length plus one block, over
    [EVP_OpenUpdate] and [EVP_OpenFinal] together. *)
Definition open_in_bounds : Prop :=
  forall octx cipher ek ivb priv st ctx input st1 ctx' p1,
    EVP_OpenInit octx cipher ek ivb priv = (st, ctx) -> st <> 0%Z ->
    EVP_OpenUpdate ctx input = (st1, ctx', p1) ->
    length p1 <= length input + EVP_CIPHER_block_size cipher /\
    (st1 = 1%Z ->
     length p1 + length (snd (EVP_OpenFinal ctx')) <=
     length input + EVP_CIPHER_block_size cipher).


End Laws.

(* ================================================================== *)
(** * Runs in short *)
(* ================================================================== *)

(** Definitions that serve to state what a run of [Seal] or [Open] comes
    to.  They are compared with the code in the lemmas below. *)

Section Summaries.

Context {P : Provider}.

(** The state [s] with the vector of encrypted keys replaced. *)
Definition with_keys (v : list bytes) (s : St SealOut) : St SealOut :=
  {| world := world s;
     out := {| encrypted_keys := v; iv := iv (out s); ciphertext := ciphertext (out s) |} |}.

(** The state of [Seal] when its buffers are allocated (lines 50-64). *)
Definition Seal_allocated (cipher : EVP_CIPHER) (pub_keys : list AsymKey)
    (plaintext : bytes) (s : St SealOut) : St SealOut :=
  {| world := world s;
     out := {| encrypted_keys :=
                 resize_all (map (fun k => EVP_PKEY_size (get_key k)) pub_keys)
                            (resize [] (length pub_keys) (encrypted_keys (out s)));
               iv := resize x00 (EVP_CIPHER_iv_length cipher) (iv (out s));
               ciphertext := resize x00 (length plaintext + EVP_CIPHER_block_size cipher)
                                    (ciphertext (out s)) |} |}.

(** The rest of [Seal] (lines 66-99). *)
Definition Seal_encrypt (cipher : EVP_CIPHER) (pub_keys : list AsymKey)
    (plaintext : bytes) : M (St SealOut) unit :=
  octx <- ctx_new ;;
  match octx with
  | None => LogAndThrowOpenSSLError ""
  | Some ctx =>
      scope_exit ctx_free (
        '(r, ctx, encrypted_keys_len) <- seal_init ctx cipher (map get_key pub_keys) ;;
        (if negb (Z.of_nat (length pub_keys) =? r)%Z
         then LogAndThrowOpenSSLError "" else ret tt) ;;
        '(r, ctx, len) <- seal_update ctx 0 plaintext ;;
        (if negb (1 =? r)%Z then LogAndThrowOpenSSLError "" else ret tt) ;;
        '(r, len') <- seal_final ctx len ;;
        (if negb (1 =? r)%Z then LogAndThrowOpenSSLError "" else ret tt) ;;
        for_ 0 (length pub_keys) (fun i =>
          resize_key_at i (nth i encrypted_keys_len 0)) ;;
        o <- get_out ;;
        set_ciphertext (resize x00 (len + len') (ciphertext o)))
  end.

(** The five provider calls of a complete [Seal]. *)
Definition seal_calls : list call :=
  [call_CTX_new; call_SealInit; call_SealUpdate; call_SealFinal; call_CTX_free].

(** A run of [Open_cipher] in short, as a function of the capacity of the
    output buffer: the outcome, the provider calls, and the bytes that were
    stored at the start of the buffer. *)
Definition Open_summary (cipher : EVP_CIPHER) (priv_key : AsymKey)
    (ciphertext_ encrypted_key iv_ : bytes) (capacity : nat)
  : outcome nat * list call * bytes :=
  if negb (length iv_ =? EVP_CIPHER_iv_length cipher) then (Aborted, [], [])
  else
    match EVP_CIPHER_CTX_new with
    | None => (Thrown CryptoOperationFailed, [call_CTX_new], [])
    | Some ctx0 =>
        let '(st, ctx1) :=
          EVP_OpenInit ctx0 cipher encrypted_key iv_ (get_key priv_key) in
        if (0 =? st)%Z
        then (Thrown CryptoOperationFailed,
              [call_CTX_new; call_OpenInit; call_CTX_free], [])
        else
          let '(st1, ctx2, p1) := EVP_OpenUpdate ctx1 ciphertext_ in
          if negb (length p1 <=? capacity)
          then (Undefined, [call_CTX_new; call_OpenInit; call_OpenUpdate], [])
          else if negb (1 =? st1)%Z
          then (Thrown CryptoOperationFailed,
                [call_CTX_new; call_OpenInit; call_OpenUpdate; call_CTX_free], p1)
          else
            let '(st2, p2) := EVP_OpenFinal ctx2 in
            if negb (length p1 + length p2 <=? capacity)
            then (Undefined,
                  [call_CTX_new; call_OpenInit; call_OpenUpdate; call_OpenFinal], p1)
            else if negb (1 =? st2)%Z
            then (Thrown CryptoOperationFailed,
                  [call_CTX_new; call_OpenInit; call_OpenUpdate; call_OpenFinal;
                   call_CTX_free], p1 ++ p2)
            else (Returned (length p1 + length p2),
                  [call_CTX_new; call_OpenInit; call_OpenUpdate; call_OpenFinal;
                   call_CTX_free], p1 ++ p2)
    end.

(** The allocating form of [Open] in the words of the specification: it
    delegates to the sized-buffer form on a buffer of its own, of the
    ciphertext length plus one block, and hands back the buffer cut to the
    length that form reports. *)
Definition Open_allocating_spec (cipher_name : string) (priv_key : AsymKey)
    (ciphertext_ encrypted_key iv_ : bytes) (buffer : bytes) (w : World)
  : outcome bytes * World :=
  match Open_buffer cipher_name priv_key ciphertext_ encrypted_key iv_
          {| world := w; out := buffer |} with
  | (Returned n, s') => (Returned (firstn n (out s')), world s')
  | (Thrown e, s') => (Thrown e, world s')
  | (Aborted, s') => (Aborted, world s')
  | (Undefined, s') => (Undefined, world s')
  end.

(** What the caller of the allocating form of [Open] has afterwards: the
    vector when the call returned, and the world. *)
Definition Open_vector_result (cipher_name : string) (priv_key : AsymKey)
    (ciphertext_ encrypted_key iv_ : bytes) (s : St bytes)
  : outcome bytes * World :=
  match Open_vector cipher_name priv_key ciphertext_ encrypted_key iv_ s with
  | (Returned _, s') => (Returned (out s'), world s')
  | (Thrown e, s') => (Thrown e, world s')
  | (Aborted, s') => (Aborted, world s')
  | (Undefined, s') => (Undefined, world s')
  end.

(** The five provider calls of a complete [Open]. *)
Definition open_calls : list call :=
  [call_CTX_new; call_OpenInit; call_OpenUpdate; call_OpenFinal; call_CTX_free].

(** The world after the provider calls [l]. *)
Definition logged (w : World) (l : list call) : World :=
  {| rng := rng w; calls := calls w ++ l |}.

(** The state after a run with summary [(o, l, wr)]. *)
Definition after_open (s : St bytes) (l : list call) (wr : bytes) : St bytes :=
  {| world := logged (world s) l; out := wr ++ skipn (length wr) (out s) |}.

End Summaries.

(* ================================================================== *)
(** * Further summaries: the whole of Seal, and the order of calls *)
(* ================================================================== *)

Section Protocol.

Context {P : Provider}.

(** A run of [Seal_encrypt] written out: what it comes to for each answer
    of the provider and each store that fits or does not fit. *)
Definition Seal_summary (cipher : EVP_CIPHER) (pub_keys : list AsymKey)
    (plaintext : bytes) (s : St SealOut) : outcome unit * St SealOut :=
  let w := world s in
  let o := out s in
  match EVP_CIPHER_CTX_new with
  | None =>
      (Thrown CryptoOperationFailed,
       {| world := logged w [call_CTX_new]; out := o |})
  | Some ctx0 =>
      let '(st, ctx1, ek, ivb, rnd) :=
        EVP_SealInit ctx0 cipher (map get_key pub_keys) (rng w) in
      let w1 := {| rng := rnd; calls := calls w |} in
      match write_each (encrypted_keys o) ek, write_at (iv o) 0 ivb with
      | Some eks, Some ivv =>
          if negb (Z.of_nat (length pub_keys) =? st)%Z
          then (Thrown CryptoOperationFailed,
                {| world := logged w1 [call_CTX_new; call_SealInit; call_CTX_free];
                   out := {| encrypted_keys := eks; iv := ivv;
                             ciphertext := ciphertext o |} |})
          else
            let '(st1, ctx2, c1) := EVP_SealUpdate ctx1 plaintext in
            match write_at (ciphertext o) 0 c1 with
            | None =>
                (Undefined,
                 {| world := logged w1 [call_CTX_new; call_SealInit; call_SealUpdate];
                    out := {| encrypted_keys := eks; iv := ivv;
                              ciphertext := ciphertext o |} |})
            | Some ct1 =>
                if negb (1 =? st1)%Z
                then (Thrown CryptoOperationFailed,
                      {| world := logged w1 [call_CTX_new; call_SealInit;
                                             call_SealUpdate; call_CTX_free];
                         out := {| encrypted_keys := eks; iv := ivv;
                                   ciphertext := ct1 |} |})
                else
                  let '(st2, c2) := EVP_SealFinal ctx2 in
                  match write_at ct1 (length c1) c2 with
                  | None =>
                      (Undefined,
                       {| world := logged w1 [call_CTX_new; call_SealInit;
                                              call_SealUpdate; call_SealFinal];
                          out := {| encrypted_keys := eks; iv := ivv;
                                    ciphertext := ct1 |} |})
                  | Some ct2 =>
                      if negb (1 =? st2)%Z
                      then (Thrown CryptoOperationFailed,
                            {| world := logged w1 seal_calls;
                               out := {| encrypted_keys := eks; iv := ivv;
                                         ciphertext := ct2 |} |})
                      else (Returned tt,
                            {| world := logged w1 seal_calls;
                               out := {| encrypted_keys :=
                                           ek ++ repeat [] (length pub_keys - length ek);
                                         iv := ivv;
                                         ciphertext := c1 ++ c2 |} |})
                  end
            end
      | _, _ =>
          (Undefined,
           {| world := logged w1 [call_CTX_new; call_SealInit]; out := o |})
      end
  end.

(** The provider calls of a complete run, up to the release of the
    context. *)
Definition seal_steps : list call :=
  [call_CTX_new; call_SealInit; call_SealUpdate; call_SealFinal].
Definition open_steps : list call :=
  [call_CTX_new; call_OpenInit; call_OpenUpdate; call_OpenFinal].

(** The provider calls [l] that a run with outcome [o] may have made, for a
    protocol of steps [steps]: a run that returns has gone through all the
    steps and has released the context; a run that throws has made no call
    (unknown cipher), or has failed to allocate the context, or has released
    the context after at least the initialisation; an aborted run has made no
    call; only a run that has left a buffer ends without release. *)
Definition run_calls {A : Type} (steps : list call) (o : outcome A) (l : list call)
  : Prop :=
  match o with
  | Returned _ => l = steps ++ [call_CTX_free]
  | Thrown _ =>
      l = [] \/
      (l = [call_CTX_new] /\ EVP_CIPHER_CTX_new = None) \/
      (exists k, 2 <= k <= length steps /\ l = firstn k steps ++ [call_CTX_free])
  | Aborted => l = []
  | Undefined => exists k, 2 <= k <= length steps /\ l = firstn k steps
  end.

End Protocol.

(* ================================================================== *)
(** * A small executable provider *)
(* ================================================================== *)

(** [Toy] has the shape of the EVP interface and none of its strength: the
    cipher is a byte-wise xor with one mask byte derived from key and IV,
    with PKCS#7 padding to blocks of 16 bytes; a wrapped key is the key
    behind the tag of the key pair. *)
Module Toy.

Inductive cipher : Type := aes_128_cbc | aes_256_cbc.

Definition block_size (c : cipher) : nat := 16.
Definition iv_length (c : cipher) : nat := 16.
Definition key_length (c : cipher) : nat :=
  match c with aes_128_cbc => 16 | aes_256_cbc => 32 end.

Definition get_cipherbyname (name : string) : option cipher :=
  if String.eqb name "aes-128-cbc" then Some aes_128_cbc
  else if String.eqb name "aes-256-cbc" then Some aes_256_cbc
  else None.

(** A key handle: the tag names the key pair. *)
Record pkey : Type := {
  tag : uchar;
  has_private : bool;
  well_formed : bool;
  size : nat
}.

Definition pair (priv pub : pkey) : bool :=
  has_private priv && well_formed priv && Byte.eqb (tag priv) (tag pub).

Record cipher_ctx : Type := {
  type : option cipher;
  mask : uchar;
  pending : bytes
}.

Definition fresh_ctx : cipher_ctx := {| type := None; mask := x00; pending := [] |}.

Definition byte_of_nat (n : nat) : uchar :=
  match Byte.of_nat n with Some b => b | None => x00 end.

Definition bxor (a b : uchar) : uchar :=
  let '(a0, (a1, (a2, (a3, (a4, (a5, (a6, a7))))))) := Byte.to_bits a in
  let '(b0, (b1, (b2, (b3, (b4, (b5, (b6, b7))))))) := Byte.to_bits b in
  Byte.of_bits (xorb a0 b0, (xorb a1 b1, (xorb a2 b2, (xorb a3 b3,
               (xorb a4 b4, (xorb a5 b5, (xorb a6 b6, xorb a7 b7))))))).

(** The random generator is a counter. *)
Fixpoint rand_bytes (n seed : nat) : bytes :=
  match n with
  | O => []
  | S n' => byte_of_nat (seed mod 256) :: rand_bytes n' (S seed)
  end.

Definition mask_of (k ivb : bytes) : uchar := bxor (hd x00 k) (hd x00 ivb).

Definition crypt (m : uchar) (data : bytes) : bytes := map (bxor m) data.

Definition wrap (pub : pkey) (k : bytes) : option bytes :=
  if well_formed pub && (S (length k) <=? size pub)
  then Some (tag pub :: k) else None.

Definition unwrap (priv : pkey) (ek : bytes) : option bytes :=
  match ek with
  | [] => None
  | t :: k =>
      if has_private priv && well_formed priv && Byte.eqb (tag priv) t
      then Some k else None
  end.

(** The keys are wrapped in order, up to the first one that fails. *)
Fixpoint wrap_all (pubk : list pkey) (k : bytes) : list bytes :=
  match pubk with
  | [] => []
  | p :: pubk' =>
      match wrap p k with
      | Some e => e :: wrap_all pubk' k
      | None => []
      end
  end.

Definition SealInit (ctx : cipher_ctx) (c : cipher) (pubk : list pkey) (seed : nat)
  : Z * cipher_ctx * list bytes * bytes * nat :=
  let k := rand_bytes (key_length c) seed in
  let ivb := rand_bytes (iv_length c) (seed + key_length c) in
  let ek := wrap_all pubk k in
  let seed' := seed + key_length c + iv_length c in
  if length ek =? length pubk
  then (Z.of_nat (length pubk),
        {| type := Some c; mask := mask_of k ivb; pending := [] |}, ek, ivb, seed')
  else ((-1)%Z, ctx, ek, ivb, seed').

Definition SealUpdate (ctx : cipher_ctx) (input : bytes) : Z * cipher_ctx * bytes :=
  match type ctx with
  | None => (0%Z, ctx, [])
  | Some c =>
      let data := pending ctx ++ input in
      let n := (length data / block_size c) * block_size c in
      (1%Z, {| type := type ctx; mask := mask ctx; pending := skipn n data |},
       crypt (mask ctx) (firstn n data))
  end.

Definition SealFinal (ctx : cipher_ctx) : Z * bytes :=
  match type ctx with
  | None => (0%Z, [])
  | Some c =>
      let padn := block_size c - length (pending ctx) in
      (1%Z, crypt (mask ctx) (pending ctx ++ repeat (byte_of_nat padn) padn))
  end.

Definition OpenInit (ctx : cipher_ctx) (c : cipher) (ek ivb : bytes) (priv : pkey)
  : Z * cipher_ctx :=
  match unwrap priv ek with
  | Some k =>
      if length k =? key_length c
      then (Z.of_nat (key_length c),
            {| type := Some c; mask := mask_of k ivb; pending := [] |})
      else (0%Z, ctx)
  | None => (0%Z, ctx)
  end.

(** The last block is held back for the padding check of [OpenFinal]. *)
Definition OpenUpdate (ctx : cipher_ctx) (input : bytes) : Z * cipher_ctx * bytes :=
  match type ctx with
  | None => (0%Z, ctx, [])
  | Some c =>
      let data := pending ctx ++ input in
      let n := if length data mod block_size c =? 0
               then length data - block_size c
               else (length data / block_size c) * block_size c in
      (1%Z, {| type := type ctx; mask := mask ctx; pending := skipn n data |},
       crypt (mask ctx) (firstn n data))
  end.

Definition OpenFinal (ctx : cipher_ctx) : Z * bytes :=
  match type ctx with
  | None => (0%Z, [])
  | Some c =>
      if length (pending ctx) =? block_size c then
        let p := crypt (mask ctx) (pending ctx) in
        let padn := Byte.to_nat (last p x00) in
        if (1 <=? padn) && (padn <=? block_size c)
           && forallb (Byte.eqb (byte_of_nat padn)) (skipn (block_size c - padn) p)
        then (1%Z, firstn (block_size c - padn) p)
        else (0%Z, [])
      else (0%Z, [])
  end.

#[export] Instance provider : Provider := {|
  RAND := nat;
  EVP_CIPHER := cipher;
  EVP_PKEY := pkey;
  EVP_CIPHER_CTX := cipher_ctx;
  EVP_get_cipherbyname := get_cipherbyname;
  EVP_CIPHER_iv_length := iv_length;
  EVP_CIPHER_block_size := block_size;
  EVP_PKEY_size := size;
  EVP_PKEY_pair := pair;
  EVP_CIPHER_CTX_new := Some fresh_ctx;
  EVP_SealInit := SealInit;
  EVP_SealUpdate := SealUpdate;
  EVP_SealFinal := SealFinal;
  EVP_OpenInit := OpenInit;
  EVP_OpenUpdate := OpenUpdate;
  EVP_OpenFinal := OpenFinal
|}.

(** Sample data for concrete runs. *)
Definition alice_pub : pkey :=
  {| tag := "A"%byte; has_private := false; well_formed := true; size := 24 |}.
Definition alice : pkey :=
  {| tag := "A"%byte; has_private := true; well_formed := true; size := 24 |}.
Definition bob_pub : pkey :=
  {| tag := "B"%byte; has_private := false; well_formed := true; size := 24 |}.
Definition bob : pkey :=
  {| tag := "B"%byte; has_private := true; well_formed := true; size := 24 |}.

Definition hello : bytes := list_byte_of_string "hello world".

Definition world0 : World := {| rng := 7; calls := [] |}.
Definition empty_out : SealOut := {| encrypted_keys := []; iv := []; ciphertext := [] |}.
Definition start : St SealOut := {| world := world0; out := empty_out |}.

Definition key_of (k : pkey) : AsymKey := {| get_key := k |}.

Definition sealed (pubs : list pkey) (pt : bytes) : outcome unit * St SealOut :=
  Seal "aes-128-cbc" (map key_of pubs) pt start.

(** The envelope of [hello] for Alice and Bob. *)
Definition envelope : St SealOut := snd (sealed [alice_pub; bob_pub] hello).

(** Bob's key slot of the envelope. *)
Definition slot_bob : bytes := nth 1 (encrypted_keys (out envelope)) [].


(** A longer message, of more than one block, and its envelope. *)
Definition dawn : bytes := list_byte_of_string "attack at dawn, not at dusk".
Definition envelope_dawn : St SealOut := snd (sealed [alice_pub; bob_pub] dawn).

(** The state of an [Open] over the output [buf]. *)
Definition opening (buf : bytes) : St bytes := {| world := world0; out := buf |}.

End Toy.

(** Further sample data. *)
Module Samples.
Import Toy.

(** The ciphertext of [dawn] with its last byte replaced. *)
Definition tampered_dawn : bytes :=
  firstn 31 (ciphertext (out envelope_dawn)) ++ [x00].

(** Outputs that are not empty before the call. *)
Definition used_out : SealOut :=
  {| encrypted_keys := [hello; dawn; hello]; iv := dawn; ciphertext := hello |}.

End Samples.

(* ================================================================== *)
(** * Tactics *)
(* ================================================================== *)

(** Unfolding of the monad, one provider call at a time. *)
Ltac unfold_run :=
  cbv beta iota zeta delta
    [bind ret throw undefined get put modify assert log set_rng get_out set_out
     ctx_new ctx_free set_encrypted_keys set_iv set_ciphertext
     store_ciphertext store_plaintext seal_init seal_update seal_final
     open_init open_update open_final scope_exit LogAndThrowOpenSSLError];
  cbn [world out rng calls encrypted_keys iv ciphertext].

Ltac run_step :=
  cbv beta iota; cbn [world out rng calls encrypted_keys iv ciphertext negb].

(** Equations between tuples, split without reducing their sides. *)
Ltac split_pairs :=
  repeat match goal with
         | H : (_, _) = (_, _) |- _ => apply pair_equal_spec in H; destruct H
         end; subst.

Ltac toy :=
  cbn [EVP_get_cipherbyname EVP_CIPHER_iv_length EVP_CIPHER_block_size
       EVP_PKEY_size EVP_PKEY_pair EVP_CIPHER_CTX_new EVP_SealInit EVP_SealUpdate
       EVP_SealFinal EVP_OpenInit EVP_OpenUpdate EVP_OpenFinal
       RAND EVP_CIPHER EVP_PKEY EVP_CIPHER_CTX Toy.provider] in *.

(* ================================================================== *)
(** * Lists, buffers and loops *)
(* ================================================================== *)

Lemma length_resize (A : Type) (d : A) n (v : list A) : length (resize d n v) = n.
Proof.
  unfold resize. rewrite length_app, length_firstn, repeat_length. lia.
Qed.

Lemma resize_prefix (A : Type) (d : A) (a b : list A) :
  resize d (length a) (a ++ b) = a.
Proof.
  unfold resize. rewrite firstn_app, Nat.sub_diag, firstn_all, length_app.
  replace (length a - (length a + length b)) with 0 by lia.
  simpl. now rewrite !app_nil_r.
Qed.




Lemma write_at_Some buf off src b :
  write_at buf off src = Some b ->
  off + length src <= length buf /\
  b = firstn off buf ++ src ++ skipn (off + length src) buf.
Proof.
  unfold write_at. destruct (Nat.leb_spec (off + length src) (length buf)); [|discriminate].
  intros [= <-]. auto.
Qed.

Lemma write_at_length buf off src b :
  write_at buf off src = Some b -> length b = length buf.
Proof.
  intros H. apply write_at_Some in H as [Hle ->].
  rewrite !length_app, length_firstn, length_skipn. lia.
Qed.

(** Two stores one behind the other, from the start of the buffer, leave
    the two sources at the front of the buffer. *)
Lemma write_at_twice buf a b b1 b2 :
  write_at buf 0 a = Some b1 ->
  write_at b1 (length a) b = Some b2 ->
  length a + length b <= length buf /\
  b2 = (a ++ b) ++ skipn (length a + length b) buf.
Proof.
  intros H1 H2.
  apply write_at_Some in H1 as [L1 ->]. apply write_at_Some in H2 as [L2 ->].
  simpl in *. rewrite length_app, length_skipn in L2.
  split; [lia|].
  rewrite firstn_app, Nat.sub_diag, firstn_all. simpl. rewrite app_nil_r.
  rewrite skipn_app, skipn_skipn.
  replace (skipn (length a + length b) a) with (@nil uchar)
    by (symmetry; apply skipn_all2; lia).
  simpl. rewrite <- app_assoc. do 3 f_equal. lia.
Qed.


Lemma set_at_app (A : Type) (pre rest : list A) y x :
  set_at (pre ++ y :: rest) (length pre) x = pre ++ x :: rest.
Proof. induction pre; simpl; congruence. Qed.

Lemma length_resize_all sizes v :
  length sizes = length v -> length (resize_all sizes v) = length v.
Proof.
  revert v. induction sizes as [|n sizes IH]; intros [|b v]; simpl; try lia.
  intros [= H]. now rewrite IH.
Qed.


Lemma write_each_Some bufs srcs r :
  write_each bufs srcs = Some r ->
  length r = length bufs /\ length srcs <= length bufs /\
  Forall2 (fun s b => length s <= length b) srcs (firstn (length srcs) bufs).
Proof.
  revert bufs r. induction srcs as [|s srcs IH]; intros bufs r; simpl.
  - intros [= <-]. repeat split; [lia | constructor].
  - destruct bufs as [|b bufs]; [discriminate|].
    destruct (write_at b 0 s) as [b'|] eqn:Hw; [|discriminate].
    destruct (write_each bufs srcs) as [rest|] eqn:Hr; [|discriminate].
    intros [= <-]. destruct (IH _ _ Hr) as (L & Lle & F).
    apply write_at_Some in Hw as [Hle _]. simpl in *.
    repeat split; [lia | lia | constructor; [lia | exact F]].
Qed.

(** After the keys were stored at the starts of the buffers, cutting every
    buffer to the length of its key leaves the keys; buffers beyond the last
    key are cut to nothing. *)
Lemma resize_all_written bufs srcs r :
  write_each bufs srcs = Some r ->
  resize_all (map (@length uchar) srcs ++ repeat 0 (length bufs - length srcs)) r =
  srcs ++ repeat [] (length bufs - length srcs).
Proof.
  revert bufs r. induction srcs as [|s srcs IH]; intros bufs r; simpl.
  - intros [= <-]. rewrite Nat.sub_0_r.
    induction bufs as [|b bufs IHb]; simpl; [reflexivity | now rewrite IHb].
  - destruct bufs as [|b bufs]; [discriminate|].
    destruct (write_at b 0 s) as [b'|] eqn:Hw; [|discriminate].
    destruct (write_each bufs srcs) as [rest|] eqn:Hr; [|discriminate].
    intros [= <-]. simpl. rewrite (IH _ _ Hr). f_equal.
    apply write_at_Some in Hw as [_ ->]. simpl. apply resize_prefix.
Qed.


Lemma map_length_resize_all sizes v :
  length sizes = length v ->
  map (@length Byte.byte) (resize_all sizes v) = sizes.
Proof.
  revert v. induction sizes as [|n sizes IH]; intros [|b v]; simpl; try easy.
  intros [= H]. now rewrite length_resize, IH.
Qed.


(* ================================================================== *)
(** * Running the envelope code *)
(* ================================================================== *)

Section Runs.

Context {P : Provider}.

Lemma for_ext (S : Type) (b1 b2 : nat -> M S unit) n :
  forall from s,
    (forall i s', from <= i < from + n -> b1 i s' = b2 i s') ->
    for_ from n b1 s = for_ from n b2 s.
Proof.
  induction n as [|n IH]; intros from s H; simpl; [reflexivity|].
  unfold bind. rewrite H by lia.
  destruct (b2 from s) as [[[]| | |] s']; try reflexivity.
  apply IH. intros. apply H. lia.
Qed.

(** The loops of [Seal] over the encrypted keys resize them one by one. *)
Lemma for_resize_keys (f : nat -> nat) n :
  forall from pre rest (s : St SealOut),
    length pre = from -> length rest = n ->
    encrypted_keys (out s) = pre ++ rest ->
    for_ from n (fun i => resize_key_at i (f i)) s =
    (Returned tt, with_keys (pre ++ resize_all (map f (seq from n)) rest) s).
Proof.
  induction n as [|n IH]; intros from pre rest s Hp Hr Hk.
  - destruct rest; [|discriminate]. simpl. unfold ret, with_keys.
    rewrite <- Hk. now destruct s as [w [k i c]].
  - destruct rest as [|b rest]; [discriminate|]. injection Hr as Hr.
    simpl for_. unfold bind at 1.
    assert (Hb : resize_key_at from (f from) s =
                 (Returned tt, with_keys ((pre ++ [resize x00 (f from) b]) ++ rest) s)).
    { unfold resize_key_at. unfold_run. rewrite Hk. unfold at_.
      rewrite nth_error_app2 by lia. rewrite <- Hp, Nat.sub_diag. simpl.
      rewrite set_at_app, <- app_assoc. reflexivity. }
    rewrite Hb.
    rewrite (IH (Datatypes.S from) (pre ++ [resize x00 (f from) b]) rest);
      [| rewrite length_app; simpl; lia | assumption | reflexivity].
    simpl. unfold with_keys. simpl. now rewrite <- !app_assoc.
Qed.

Lemma map_nth_error_seq (A : Type) (l : list A) (g : A -> nat) :
  map (fun i => match nth_error l i with Some k => g k | None => 0 end)
      (seq 0 (length l)) = map g l.
Proof.
  induction l as [|a l IH]; simpl; [reflexivity|].
  f_equal. rewrite <- seq_shift, map_map. exact IH.
Qed.

Lemma Seal_prefix cipher_name pub_keys plaintext cipher s :
  pub_keys <> [] ->
  EVP_get_cipherbyname cipher_name = Some cipher ->
  Seal cipher_name pub_keys plaintext s =
  Seal_encrypt cipher pub_keys plaintext (Seal_allocated cipher pub_keys plaintext s).
Proof.
  intros Hn Hc.
  assert (HN : (0 <? length pub_keys) = true)
    by (destruct pub_keys; [congruence | reflexivity]).
  unfold Seal. rewrite HN, Hc. unfold_run.
  rewrite for_ext with
    (b2 := fun i => resize_key_at i
             (match nth_error pub_keys i with
              | Some k => EVP_PKEY_size (get_key k) | None => 0 end)).
  2:{ intros i s' Hi.
      destruct (nth_error pub_keys i) eqn:E; [reflexivity|].
      apply nth_error_None in E. lia. }
  rewrite for_resize_keys with (pre := [])
    (rest := resize [] (length pub_keys) (encrypted_keys (out s)));
    [| reflexivity | apply length_resize | reflexivity].
  rewrite map_nth_error_seq. reflexivity.
Qed.

Lemma map_nth_nil_seq k n :
  map (fun i => nth i (@nil nat) 0) (seq k n) = repeat 0 n.
Proof.
  revert k. induction n as [|n IH]; intros k; [reflexivity|].
  cbn [seq map repeat]. rewrite IH. now destruct k.
Qed.

Lemma map_nth_seq (l : list nat) n :
  length l <= n ->
  map (fun i => nth i l 0) (seq 0 n) = l ++ repeat 0 (n - length l).
Proof.
  revert n. induction l as [|a l IH]; intros n H.
  - cbn [app length]. rewrite Nat.sub_0_r. apply map_nth_nil_seq.
  - destruct n as [|n]; simpl in *; [lia|].
    f_equal. rewrite <- seq_shift, map_map. apply IH. lia.
Qed.

(** What a [Seal] that returns has gone through: every provider call
    succeeded, every store was within its buffer, and the outputs are the
    provider's outputs, cut to their lengths. *)
Lemma Seal_encrypt_Returned cipher pub_keys plaintext s s' :
  length (encrypted_keys (out s)) = length pub_keys ->
  Seal_encrypt cipher pub_keys plaintext s = (Returned tt, s') ->
  exists ctx0 ctx1 ek ivb rnd' ctx2 c1 c2,
    EVP_CIPHER_CTX_new = Some ctx0 /\
    EVP_SealInit ctx0 cipher (map get_key pub_keys) (rng (world s)) =
      (Z.of_nat (length pub_keys), ctx1, ek, ivb, rnd') /\
    EVP_SealUpdate ctx1 plaintext = (1%Z, ctx2, c1) /\
    EVP_SealFinal ctx2 = (1%Z, c2) /\
    length ek <= length pub_keys /\
    length ivb <= length (iv (out s)) /\
    length c1 + length c2 <= length (ciphertext (out s)) /\
    s' = {| world := {| rng := rnd'; calls := calls (world s) ++ seal_calls |};
            out := {| encrypted_keys := ek ++ repeat [] (length pub_keys - length ek);
                      iv := ivb ++ skipn (length ivb) (iv (out s));
                      ciphertext := c1 ++ c2 |} |}.
Proof.
  intros Hlen. unfold Seal_encrypt. unfold_run.
  destruct EVP_CIPHER_CTX_new as [ctx0|]; run_step; [|discriminate].
  destruct (EVP_SealInit ctx0 cipher (map get_key pub_keys) (rng (world s)))
    as [[[[st ctx1] ek] ivb] rnd'] eqn:Hinit; run_step.
  destruct (write_each (encrypted_keys (out s)) ek) as [eks|] eqn:Hek;
    run_step; [|discriminate].
  destruct (write_at (iv (out s)) 0 ivb) as [ivv|] eqn:Hiv; run_step; [|discriminate].
  destruct (Z.eqb_spec (Z.of_nat (length pub_keys)) st) as [<-|];
    run_step; [|discriminate].
  destruct (EVP_SealUpdate ctx1 plaintext) as [[st1 ctx2] c1] eqn:Hupd; run_step.
  destruct (write_at (ciphertext (out s)) 0 c1) as [ct1|] eqn:Hc1;
    run_step; [|discriminate].
  destruct (Z.eqb_spec 1 st1) as [<-|]; run_step; [|discriminate].
  destruct (EVP_SealFinal ctx2) as [st2 c2] eqn:Hfin; run_step.
  destruct (write_at ct1 (length c1) c2) as [ct2|] eqn:Hc2; run_step; [|discriminate].
  destruct (Z.eqb_spec 1 st2) as [<-|]; run_step; [|discriminate].
  destruct (write_each_Some _ _ _ Hek) as (Leks & Lek & _).
  rewrite for_resize_keys with (pre := []) (rest := eks);
    [| reflexivity | simpl; lia | reflexivity].
  cbn [world out rng calls encrypted_keys iv ciphertext with_keys app].
  intros [= <-].
  destruct (write_at_twice _ _ _ _ _ Hc1 Hc2) as [Lc ->].
  apply write_at_Some in Hiv as [Liv ->].
  exists ctx0, ctx1, ek, ivb, rnd', ctx2, c1, c2.
  repeat split; try assumption; try lia.
  assert (Lek' : length (map (@length uchar) ek) <= length pub_keys)
    by (rewrite length_map; lia).
  rewrite (map_nth_seq _ _ Lek'), length_map, <- Hlen.
  rewrite (resize_all_written _ _ _ Hek).
  rewrite <- length_app, resize_prefix, <- !app_assoc.
  reflexivity.
Qed.


Lemma Open_cipher_run cipher priv_key ciphertext_ encrypted_key iv_ s :
  Open_cipher cipher priv_key ciphertext_ encrypted_key iv_ s =
  let '(o, l, wr) :=
    Open_summary cipher priv_key ciphertext_ encrypted_key iv_ (length (out s)) in
  (o, after_open s l wr).
Proof.
  destruct s as [[r cl] buf].
  unfold Open_cipher, Open_summary, after_open, logged, CryptoOperationFailed.
  unfold_run.
  destruct (length iv_ =? EVP_CIPHER_iv_length cipher); run_step;
    [| now rewrite app_nil_r].
  destruct EVP_CIPHER_CTX_new as [ctx0|]; run_step; [| reflexivity].
  destruct (EVP_OpenInit ctx0 cipher encrypted_key iv_ (get_key priv_key))
    as [st ctx1]; run_step.
  destruct (0 =? st)%Z; run_step; [now rewrite <- !app_assoc|].
  destruct (EVP_OpenUpdate ctx1 ciphertext_) as [[st1 ctx2] p1]; run_step.
  unfold write_at at 1. cbn [Nat.add].
  destruct (Nat.leb_spec (length p1) (length buf)) as [L1|L1]; run_step;
    [| now rewrite <- !app_assoc].
  cbn [firstn app].
  destruct (1 =? st1)%Z; run_step; [| now rewrite <- !app_assoc].
  destruct (EVP_OpenFinal ctx2) as [st2 p2]; run_step.
  assert (Lb : length (p1 ++ skipn (length p1) buf) = length buf)
    by (rewrite length_app, length_skipn; lia).
  unfold write_at. rewrite Lb.
  destruct (Nat.leb_spec (length p1 + length p2) (length buf)) as [L2|L2]; run_step;
    [| now rewrite <- !app_assoc].
  assert (E : firstn (length p1) (p1 ++ skipn (length p1) buf) ++
              p2 ++ skipn (length p1 + length p2) (p1 ++ skipn (length p1) buf) =
              (p1 ++ p2) ++ skipn (length (p1 ++ p2)) buf).
  { rewrite firstn_app, Nat.sub_diag, firstn_all. cbn [firstn]. rewrite app_nil_r.
    rewrite skipn_app, skipn_skipn, length_app.
    replace (skipn (length p1 + length p2) p1) with (@nil Byte.byte)
      by (symmetry; apply skipn_all2; lia).
    cbn [app]. rewrite <- app_assoc. do 3 f_equal. lia. }
  rewrite E.
  destruct (1 =? st2)%Z; run_step; [| now rewrite <- !app_assoc].
  assert (Lf : length ((p1 ++ p2) ++ skipn (length (p1 ++ p2)) buf) = length buf)
    by (rewrite !length_app, length_skipn; lia).
  rewrite Lf.
  destruct (Nat.leb_spec (length p1 + length p2) (length buf)); [| lia].
  run_step. now rewrite <- !app_assoc.
Qed.



Lemma Open_summary_iv_length cipher priv_key ciphertext_ encrypted_key iv_ capacity :
  length iv_ <> EVP_CIPHER_iv_length cipher ->
  Open_summary cipher priv_key ciphertext_ encrypted_key iv_ capacity =
  (Aborted, [], []).
Proof.
  intros H. unfold Open_summary.
  destruct (Nat.eqb_spec (length iv_) (EVP_CIPHER_iv_length cipher)); [contradiction|].
  reflexivity.
Qed.

Lemma after_open_nothing (s : St bytes) : after_open s [] [] = s.
Proof.
  destruct s as [[r cl] buf]. unfold after_open, logged. cbn. now rewrite app_nil_r.
Qed.

(** Where a run returns, the bytes stored are as many as the length it
    returns. *)
Lemma Open_summary_Returned cipher priv_key ciphertext_ encrypted_key iv_ capacity
    n l wr :
  Open_summary cipher priv_key ciphertext_ encrypted_key iv_ capacity =
    (Returned n, l, wr) ->
  n = length wr /\ n <= capacity /\ l = open_calls.
Proof.
  unfold Open_summary.
  destruct (negb (length iv_ =? EVP_CIPHER_iv_length cipher)); [discriminate|].
  destruct EVP_CIPHER_CTX_new as [ctx0|]; [|discriminate].
  destruct (EVP_OpenInit ctx0 cipher encrypted_key iv_ (get_key priv_key)) as [st ctx1].
  destruct (0 =? st)%Z; [discriminate|].
  destruct (EVP_OpenUpdate ctx1 ciphertext_) as [[st1 ctx2] p1].
  destruct (Nat.leb_spec (length p1) capacity); cbn [negb]; [|discriminate].
  destruct (negb (1 =? st1)%Z); [discriminate|].
  destruct (EVP_OpenFinal ctx2) as [st2 p2].
  destruct (Nat.leb_spec (length p1 + length p2) capacity); cbn [negb]; [|discriminate].
  destruct (negb (1 =? st2)%Z); [discriminate|].
  intros [= <- <- <-]. rewrite length_app. auto.
Qed.

(** With room for the input length plus one block, no store of a
    provider with bounded decryption leaves the buffer, and no assertion
    fails once the IV has the right length. *)
Lemma Open_summary_in_bounds cipher priv_key ciphertext_ encrypted_key iv_ capacity :
  open_in_bounds ->
  length iv_ = EVP_CIPHER_iv_length cipher ->
  length ciphertext_ + EVP_CIPHER_block_size cipher <= capacity ->
  let o := fst (fst (Open_summary cipher priv_key ciphertext_ encrypted_key iv_ capacity)) in
  o <> Undefined /\ o <> Aborted.
Proof.
  intros Hbnd Hiv Hcap. unfold Open_summary.
  rewrite Hiv, Nat.eqb_refl. cbn [negb].
  destruct EVP_CIPHER_CTX_new as [ctx0|]; [| cbn; split; discriminate].
  destruct (EVP_OpenInit ctx0 cipher encrypted_key iv_ (get_key priv_key))
    as [st ctx1] eqn:Hoi.
  destruct (Z.eqb_spec 0 st) as [|Hst]; [cbn; split; discriminate|].
  destruct (EVP_OpenUpdate ctx1 ciphertext_) as [[st1 ctx2] p1] eqn:Hou.
  destruct (Hbnd _ _ _ _ _ _ _ _ _ _ _ Hoi (not_eq_sym Hst) Hou) as [B1 B2].
  destruct (Nat.leb_spec (length p1) capacity); [|lia]. cbn [negb].
  destruct (Z.eqb_spec 1 st1) as [E|]; cbn [negb]; [| cbn; split; discriminate].
  specialize (B2 (eq_sym E)).
  destruct (EVP_OpenFinal ctx2) as [st2 p2]. cbn [snd] in B2.
  destruct (Nat.leb_spec (length p1 + length p2) capacity); [|lia]. cbn [negb].
  destruct (negb (1 =? st2)%Z); cbn; split; discriminate.
Qed.

(** Without room for what [EVP_OpenUpdate] produces, the run gets as far
    as the store. *)
Lemma Open_summary_overflow cipher priv_key ciphertext_ encrypted_key iv_ capacity
    ctx0 st ctx1 st1 ctx2 p1 :
  length iv_ = EVP_CIPHER_iv_length cipher ->
  EVP_CIPHER_CTX_new = Some ctx0 ->
  EVP_OpenInit ctx0 cipher encrypted_key iv_ (get_key priv_key) = (st, ctx1) ->
  st <> 0%Z ->
  EVP_OpenUpdate ctx1 ciphertext_ = (st1, ctx2, p1) ->
  capacity < length p1 ->
  Open_summary cipher priv_key ciphertext_ encrypted_key iv_ capacity =
  (Undefined, [call_CTX_new; call_OpenInit; call_OpenUpdate], []).
Proof.
  intros Hiv Hnew Hoi Hst Hou Hcap. unfold Open_summary.
  rewrite Hiv, Nat.eqb_refl, Hnew, Hoi. cbn [negb].
  destruct (Z.eqb_spec 0 st); [congruence|].
  rewrite Hou.
  destruct (Nat.leb_spec (length p1) capacity); [lia | reflexivity].
Qed.

Lemma Open_buffer_run cipher_name cipher priv_key ciphertext_ encrypted_key iv_ s :
  EVP_get_cipherbyname cipher_name = Some cipher ->
  Open_buffer cipher_name priv_key ciphertext_ encrypted_key iv_ s =
  Open_cipher cipher priv_key ciphertext_ encrypted_key iv_ s.
Proof.
  intros H. unfold Open_buffer. rewrite H. reflexivity.
Qed.

Lemma Open_vector_run cipher_name cipher priv_key ciphertext_ encrypted_key iv_ s :
  EVP_get_cipherbyname cipher_name = Some cipher ->
  Open_vector cipher_name priv_key ciphertext_ encrypted_key iv_ s =
  match Open_cipher cipher priv_key ciphertext_ encrypted_key iv_
          {| world := world s;
             out := resize x00 (length ciphertext_ + EVP_CIPHER_block_size cipher)
                           (out s) |} with
  | (Returned n, s') => (Returned tt, {| world := world s'; out := resize x00 n (out s') |})
  | (Thrown e, s') => (Thrown e, s')
  | (Aborted, s') => (Aborted, s')
  | (Undefined, s') => (Undefined, s')
  end.
Proof.
  intros H. unfold Open_vector. rewrite H. unfold_run.
  destruct (Open_cipher _ _ _ _ _ _) as [[n|e| |] s']; reflexivity.
Qed.

End Runs.

(* ================================================================== *)
(** * The small provider obeys the laws *)
(* ================================================================== *)

Module ToyFacts.
Import Toy.

#[local] Arguments block_size : simpl never.
#[local] Arguments iv_length : simpl never.
#[local] Arguments key_length : simpl never.
#[local] Arguments rand_bytes : simpl never.



Lemma length_crypt m d : length (crypt m d) = length d.
Proof. apply length_map. Qed.


Lemma length_rand_bytes n seed : length (rand_bytes n seed) = n.
Proof. revert seed. induction n; intros; simpl; [reflexivity | now rewrite IHn]. Qed.



Theorem toy_seal_init_complete : @seal_init_complete provider.
Proof.
  intros ctx c pubk rnd st ctx' ek ivb rnd' H Hst. toy. unfold SealInit in H.
  destruct (Nat.eqb_spec (length (wrap_all pubk (rand_bytes (key_length c) rnd)))
                         (length pubk)) as [E|E].
  - injection H as <- <- <- <- <-. split; [exact E | apply length_rand_bytes].
  - injection H as <- <- <- <- <-. lia.
Qed.




Lemma OpenInit_success octx c ek ivb priv st ctx :
  OpenInit octx c ek ivb priv = (st, ctx) -> st <> 0%Z ->
  exists m, ctx = {| type := Some c; mask := m; pending := [] |}.
Proof.
  unfold OpenInit. intros H Hst.
  destruct (unwrap priv ek) as [k|]; [|congruence].
  destruct (length k =? key_length c); [|congruence].
  eexists. split_pairs. reflexivity.
Qed.

Lemma OpenFinal_length ctx : length (snd (OpenFinal ctx)) <= 16.
Proof.
  unfold OpenFinal. destruct (type ctx) as [c|]; [| cbn; lia].
  destruct (length (pending ctx) =? block_size c); [| cbn; lia].
  match goal with |- context [if ?b then _ else _] => destruct b end;
    cbn [snd]; [| cbn; lia].
  rewrite length_firstn. unfold block_size. lia.
Qed.

Theorem toy_open_in_bounds : @open_in_bounds provider.
Proof.
  intros octx c ek ivb priv st ctx input st1 ctx' p1 Hinit Hst Hupd. toy.
  destruct (OpenInit_success _ _ _ _ _ _ _ Hinit Hst) as [m ->].
  unfold OpenUpdate in Hupd. cbn [type mask pending app] in Hupd.
  clear Hinit. split_pairs.
  rewrite length_crypt, length_firstn.
  split; [lia|]. intros _.
  match goal with |- context [OpenFinal ?x] => pose proof (OpenFinal_length x) end.
  unfold block_size in *. lia.
Qed.






End ToyFacts.

(* ================================================================== *)
(** * Properties of Seal and Open *)
(* ================================================================== *)

Section Properties.

Context {P : Provider}.

(** What a returning [Seal] has done, in terms of the provider. *)
Lemma Seal_Returned cipher_name cipher pub_keys plaintext s s' :
  EVP_get_cipherbyname cipher_name = Some cipher ->
  Seal cipher_name pub_keys plaintext s = (Returned tt, s') ->
  exists ctx0 ctx1 ek ivb rnd' ctx2 c1 c2,
    EVP_CIPHER_CTX_new = Some ctx0 /\
    EVP_SealInit ctx0 cipher (map get_key pub_keys) (rng (world s)) =
      (Z.of_nat (length (map get_key pub_keys)), ctx1, ek, ivb, rnd') /\
    EVP_SealUpdate ctx1 plaintext = (1%Z, ctx2, c1) /\
    EVP_SealFinal ctx2 = (1%Z, c2) /\
    length ek <= length pub_keys /\
    length ivb <= EVP_CIPHER_iv_length cipher /\
    length c1 + length c2 <= length plaintext + EVP_CIPHER_block_size cipher /\
    world s' = {| rng := rnd'; calls := calls (world s) ++ seal_calls |} /\
    encrypted_keys (out s') = ek ++ repeat [] (length pub_keys - length ek) /\
    iv (out s') =
      ivb ++ skipn (length ivb) (resize x00 (EVP_CIPHER_iv_length cipher) (iv (out s))) /\
    ciphertext (out s') = c1 ++ c2.
Proof.
  intros Hc Hseal.
  assert (Hne : pub_keys <> []).
  { intros ->. unfold Seal in Hseal. unfold_run. discriminate. }
  rewrite (Seal_prefix _ _ plaintext _ s Hne Hc) in Hseal.
  apply Seal_encrypt_Returned in Hseal
    as (ctx0 & ctx1 & ek & ivb & rnd' & ctx2 & c1 & c2
        & Hnew & Hinit & Hupd & Hfin & Lek & Liv & Lc & ->).
  2:{ cbn. rewrite length_resize_all;
        [apply length_resize | now rewrite length_map, length_resize]. }
  cbn [Seal_allocated world out rng calls encrypted_keys iv ciphertext] in *.
  rewrite length_resize in Liv, Lc.
  exists ctx0, ctx1, ek, ivb, rnd', ctx2, c1, c2.
  rewrite length_map. repeat split; assumption.
Qed.

(** The same, for a provider whose successful [EVP_SealInit] is complete:
    the outputs of [Seal] are exactly the provider's outputs. *)
Lemma Seal_Returned_complete cipher_name cipher pub_keys plaintext s s' :
  seal_init_complete ->
  EVP_get_cipherbyname cipher_name = Some cipher ->
  Seal cipher_name pub_keys plaintext s = (Returned tt, s') ->
  exists ctx0 ctx1 ek ivb rnd' ctx2 c1 c2,
    EVP_CIPHER_CTX_new = Some ctx0 /\
    EVP_SealInit ctx0 cipher (map get_key pub_keys) (rng (world s)) =
      (Z.of_nat (length (map get_key pub_keys)), ctx1, ek, ivb, rnd') /\
    EVP_SealUpdate ctx1 plaintext = (1%Z, ctx2, c1) /\
    EVP_SealFinal ctx2 = (1%Z, c2) /\
    length ek = length pub_keys /\
    length ivb = EVP_CIPHER_iv_length cipher /\
    s' = {| world := {| rng := rnd'; calls := calls (world s) ++ seal_calls |};
            out := {| encrypted_keys := ek; iv := ivb; ciphertext := c1 ++ c2 |} |}.
Proof.
  intros Hcomp Hc Hseal.
  destruct (Seal_Returned _ _ _ _ _ _ Hc Hseal)
    as (ctx0 & ctx1 & ek & ivb & rnd' & ctx2 & c1 & c2
        & Hnew & Hinit & Hupd & Hfin & _ & _ & _ & Hw & Hk & Hi & Hct).
  destruct (Hcomp _ _ _ _ _ _ _ _ _ Hinit eq_refl) as [Lek Liv].
  rewrite length_map in Lek.
  exists ctx0, ctx1, ek, ivb, rnd', ctx2, c1, c2.
  repeat split; try assumption.
  destruct s' as [w' [k' i' c']]. cbn in Hw, Hk, Hi, Hct. subst.
  rewrite Lek, Nat.sub_diag, app_nil_r.
  rewrite skipn_all2 by (rewrite length_resize; lia).
  now rewrite app_nil_r.
Qed.

(** C2.  A [Seal] that returns hands back one encrypted key per public key,
    in the order of [pub_keys]: the vector [encrypted_keys] is the array [ek]
    that [EVP_SealInit] filled for the key array [pub_keys[i].get_key()],
    so the key at position [i] is the symmetric key wrapped under
    [pub_keys[i]]. *)
Theorem Seal_encrypted_keys_positional
    cipher_name cipher pub_keys plaintext s s' :
  seal_init_complete ->
  EVP_get_cipherbyname cipher_name = Some cipher ->
  Seal cipher_name pub_keys plaintext s = (Returned tt, s') ->
  length (encrypted_keys (out s')) = length pub_keys /\
  exists ctx0 ctx1 ek ivb rnd',
    EVP_CIPHER_CTX_new = Some ctx0 /\
    EVP_SealInit ctx0 cipher (map get_key pub_keys) (rng (world s)) =
      (Z.of_nat (length pub_keys), ctx1, ek, ivb, rnd') /\
    encrypted_keys (out s') = ek /\
    forall i, i < length pub_keys ->
      exists k eki, nth_error pub_keys i = Some k /\
                    nth_error (map get_key pub_keys) i = Some (get_key k) /\
                    nth_error ek i = Some eki /\
                    nth_error (encrypted_keys (out s')) i = Some eki.
Proof.
  intros Hcomp Hc Hseal.
  destruct (Seal_Returned_complete _ _ _ _ _ _ Hcomp Hc Hseal)
    as (ctx0 & ctx1 & ek & ivb & rnd' & ctx2 & c1 & c2
        & Hnew & Hinit & _ & _ & Lek & _ & ->).
  cbn [out encrypted_keys]. split; [exact Lek|].
  exists ctx0, ctx1, ek, ivb, rnd'. rewrite length_map in Hinit.
  repeat split; try assumption.
  intros i Hi.
  destruct (nth_error pub_keys i) as [k|] eqn:Ek;
    [| apply nth_error_None in Ek; lia].
  destruct (nth_error ek i) as [eki|] eqn:Ee;
    [| apply nth_error_None in Ee; lia].
  exists k, eki. repeat split; try reflexivity.
  now apply map_nth_error.
Qed.




(** C4, as the code has it.  When the IV has not the length the cipher
    asks for, [Open] stops at the assertion: the process is aborted, no
    exception is raised, and nothing was asked of the provider.  The
    allocating form has resized the vector by then. *)
Theorem Open_iv_length_asserted
    cipher_name cipher priv ciphertext_ encrypted_key iv_ t :
  EVP_get_cipherbyname cipher_name = Some cipher ->
  length iv_ <> EVP_CIPHER_iv_length cipher ->
  Open_buffer cipher_name priv ciphertext_ encrypted_key iv_ t = (Aborted, t) /\
  Open_vector cipher_name priv ciphertext_ encrypted_key iv_ t =
    (Aborted,
     {| world := world t;
        out := resize x00 (length ciphertext_ + EVP_CIPHER_block_size cipher)
                      (out t) |}).
Proof.
  intros Hc Hiv. split.
  - rewrite (Open_buffer_run _ cipher _ _ _ _ _ Hc), Open_cipher_run.
    rewrite (Open_summary_iv_length _ _ _ _ _ _ Hiv). now rewrite after_open_nothing.
  - rewrite (Open_vector_run _ cipher _ _ _ _ _ Hc), Open_cipher_run.
    rewrite (Open_summary_iv_length _ _ _ _ _ _ Hiv). now rewrite after_open_nothing.
Qed.


(** C6.  An unknown cipher name makes [Seal] and both forms of [Open] throw
    [UnknownCipher] at once: the outputs, the random generator and the log
    of provider calls are what they were. *)
Theorem unknown_cipher_no_effect
    cipher_name pub_keys plaintext priv ciphertext_ encrypted_key iv_
    (s : St SealOut) (t : St bytes) :
  EVP_get_cipherbyname cipher_name = None ->
  pub_keys <> [] ->
  Seal cipher_name pub_keys plaintext s =
    (Thrown (UnknownCipher "Envelope::Seal" cipher_name), s) /\
  Open_buffer cipher_name priv ciphertext_ encrypted_key iv_ t =
    (Thrown (UnknownCipher "Envelope::Open" cipher_name), t) /\
  Open_vector cipher_name priv ciphertext_ encrypted_key iv_ t =
    (Thrown (UnknownCipher "Envelope" cipher_name), t).
Proof.
  intros Hc Hne. unfold Seal, Open_buffer, Open_vector. rewrite Hc.
  destruct pub_keys; [congruence|]. repeat split.
Qed.

(** C8.  The allocating form of [Open] does what the specification says of
    it: on any buffer of the ciphertext length plus one block, the
    sized-buffer form has the same outcome, and where it returns [n], the
    vector of the allocating form is the first [n] bytes of that buffer and
    is [n] bytes long.  The content the vector had before does not matter. *)
Theorem Open_vector_refines_Open_buffer
    cipher_name cipher priv ciphertext_ encrypted_key iv_ w v0 buffer :
  EVP_get_cipherbyname cipher_name = Some cipher ->
  length buffer = length ciphertext_ + EVP_CIPHER_block_size cipher ->
  Open_vector_result cipher_name priv ciphertext_ encrypted_key iv_
                     {| world := w; out := v0 |} =
  Open_allocating_spec cipher_name priv ciphertext_ encrypted_key iv_ buffer w /\
  forall n tb,
    Open_buffer cipher_name priv ciphertext_ encrypted_key iv_
                {| world := w; out := buffer |} = (Returned n, tb) ->
    exists tv,
      Open_vector cipher_name priv ciphertext_ encrypted_key iv_
                  {| world := w; out := v0 |} = (Returned tt, tv) /\
      out tv = firstn n (out tb) /\ length (out tv) = n.
Proof.
  intros Hc Hlen.
  unfold Open_vector_result, Open_allocating_spec.
  rewrite (Open_vector_run _ cipher _ _ _ _ _ Hc), (Open_buffer_run _ cipher _ _ _ _ _ Hc).
  rewrite !Open_cipher_run. cbn [out world]. rewrite length_resize, Hlen.
  destruct (Open_summary cipher priv ciphertext_ encrypted_key iv_
              (length ciphertext_ + EVP_CIPHER_block_size cipher))
    as [[[n|e| |] l] wr] eqn:Hsum.
  - destruct (Open_summary_Returned _ _ _ _ _ _ _ _ _ Hsum) as (-> & _ & _).
    unfold after_open. cbn [out world].
    rewrite resize_prefix, firstn_app, Nat.sub_diag, firstn_all. cbn [firstn].
    rewrite app_nil_r. split; [reflexivity|].
    intros n tb [= <- <-]. eexists. split; [reflexivity|]. cbn [out].
    rewrite firstn_app, Nat.sub_diag, firstn_all. cbn [firstn].
    now rewrite app_nil_r.
  - split; [reflexivity | discriminate].
  - split; [reflexivity | discriminate].
  - split; [reflexivity | discriminate].
Qed.


(** C10.  The sized-buffer form never looks at the capacity of the output
    buffer before it stores into it.  With room for the ciphertext length
    plus one block, every store stays inside the buffer and the closing
    assertion holds: the run neither leaves the buffer nor aborts, and a
    returned length is within the capacity.  With a buffer too small for what
    [EVP_OpenUpdate] produces, no error comes first: the run gets as far as
    the store, which leaves the buffer. *)
Theorem Open_cipher_capacity_unchecked
    cipher priv ciphertext_ encrypted_key iv_ :
  open_in_bounds ->
  length iv_ = EVP_CIPHER_iv_length cipher ->
  (forall t,
     length ciphertext_ + EVP_CIPHER_block_size cipher <= length (out t) ->
     let o := fst (Open_cipher cipher priv ciphertext_ encrypted_key iv_ t) in
     o <> Undefined /\ o <> Aborted /\
     forall n, o = Returned n -> n <= length (out t)) /\
  (forall small ctx0 st ctx1 st1 ctx2 p1,
     EVP_CIPHER_CTX_new = Some ctx0 ->
     EVP_OpenInit ctx0 cipher encrypted_key iv_ (get_key priv) = (st, ctx1) ->
     st <> 0%Z ->
     EVP_OpenUpdate ctx1 ciphertext_ = (st1, ctx2, p1) ->
     length (out small) < length p1 ->
     Open_cipher cipher priv ciphertext_ encrypted_key iv_ small =
       (Undefined,
        {| world := logged (world small) [call_CTX_new; call_OpenInit; call_OpenUpdate];
           out := out small |})).
Proof.
  intros Hbnd Hiv. split.
  - intros t Hcap. cbv zeta. rewrite Open_cipher_run.
    pose proof (Open_summary_in_bounds cipher priv ciphertext_ encrypted_key iv_
                  (length (out t)) Hbnd Hiv Hcap) as Hin.
    destruct (Open_summary cipher priv ciphertext_ encrypted_key iv_ (length (out t)))
      as [[o l] wr] eqn:Hsum.
    cbn [fst] in *. destruct Hin as [H1 H2]. repeat split; try assumption.
    intros n ->.
    now destruct (Open_summary_Returned _ _ _ _ _ _ _ _ _ Hsum) as (_ & ? & _).
  - intros small ctx0 st ctx1 st1 ctx2 p1 Hnew Hoi Hst Hou Hsmall.
    rewrite Open_cipher_run.
    rewrite (Open_summary_overflow _ _ _ _ _ _ _ _ _ _ _ _ Hiv Hnew Hoi Hst Hou Hsmall).
    reflexivity.
Qed.

End Properties.

(* ================================================================== *)
(** * Concrete runs with the small provider *)
(* ================================================================== *)

Module Examples.
Import Toy ToyFacts.

Lemma envelope_sealed :
  Seal "aes-128-cbc" (map key_of [alice_pub; bob_pub]) hello start =
  (Returned tt, envelope).
Proof. vm_compute. reflexivity. Qed.

(** Scenario of the specification: an empty plaintext for two recipients
    gives one block of ciphertext, and each recipient opens it to an empty
    plaintext. *)
Example empty_plaintext_one_block :
  let r := sealed [alice_pub; bob_pub] [] in
  fst r = Returned tt /\
  length (ciphertext (out (snd r))) = 16 /\
  length (encrypted_keys (out (snd r))) = 2 /\
  out (snd (Open_vector "aes-128-cbc" (key_of alice) (ciphertext (out (snd r)))
                        (nth 0 (encrypted_keys (out (snd r))) [])
                        (iv (out (snd r))) (opening []))) = [] /\
  out (snd (Open_vector "aes-128-cbc" (key_of bob) (ciphertext (out (snd r)))
                        (nth 1 (encrypted_keys (out (snd r))) [])
                        (iv (out (snd r))) (opening []))) = [].
Proof. vm_compute. repeat split. Qed.

(** Scenario of the specification: "hello world" for one recipient opens
    to "hello world"; with the last ciphertext byte changed, the padding
    check of the provider fails and [Open] throws. *)
Example hello_world_one_recipient :
  let r := sealed [alice_pub] hello in
  let ct := ciphertext (out (snd r)) in
  let ek := nth 0 (encrypted_keys (out (snd r))) [] in
  let tampered := firstn 15 ct ++ [x00] in
  fst r = Returned tt /\
  out (snd (Open_vector "aes-128-cbc" (key_of alice) ct ek (iv (out (snd r)))
                        (opening []))) = hello /\
  fst (Open_vector "aes-128-cbc" (key_of alice) tampered ek (iv (out (snd r)))
                   (opening [])) = Thrown CryptoOperationFailed.
Proof. vm_compute. repeat split. Qed.


Lemma Seal_encrypted_keys_positional_witness :
  Seal "aes-128-cbc" (map key_of [alice_pub; bob_pub]) hello start =
    (Returned tt, envelope) /\
  length (encrypted_keys (out envelope)) = length (map key_of [alice_pub; bob_pub]) /\
  exists ctx0 ctx1 ek ivb rnd',
    EVP_CIPHER_CTX_new = Some ctx0 /\
    EVP_SealInit ctx0 aes_128_cbc (map get_key (map key_of [alice_pub; bob_pub]))
                 (rng (world start)) =
      (Z.of_nat (length (map key_of [alice_pub; bob_pub])), ctx1, ek, ivb, rnd') /\
    encrypted_keys (out envelope) = ek /\
    forall i, i < length (map key_of [alice_pub; bob_pub]) ->
      exists k eki,
        nth_error (map key_of [alice_pub; bob_pub]) i = Some k /\
        nth_error (map get_key (map key_of [alice_pub; bob_pub])) i = Some (get_key k) /\
        nth_error ek i = Some eki /\
        nth_error (encrypted_keys (out envelope)) i = Some eki.
Proof.
  split; [exact envelope_sealed|].
  apply (@Seal_encrypted_keys_positional provider "aes-128-cbc" aes_128_cbc
           (map key_of [alice_pub; bob_pub]) hello start envelope
           toy_seal_init_complete).
  - reflexivity.
  - exact envelope_sealed.
Defined.



(** C4, against the claim: with an IV that is too short, [Open] raises no
    exception of any kind, [InvalidIVLength] or other; the run is aborted. *)
Lemma Open_short_iv_not_thrown :
  let r := Open_buffer "aes-128-cbc" (key_of bob) (ciphertext (out envelope))
                       slot_bob [] (opening (repeat x00 32)) in
  fst r = Aborted /\ forall e, fst r <> Thrown e.
Proof.
  vm_compute. split; [reflexivity | discriminate].
Qed.

Lemma Open_iv_length_asserted_witness :
  length (@nil Byte.byte) <> EVP_CIPHER_iv_length aes_128_cbc /\
  Open_buffer "aes-128-cbc" (key_of bob) (ciphertext (out envelope))
              slot_bob [] (opening (repeat x00 32)) =
    (Aborted, opening (repeat x00 32)) /\
  Open_vector "aes-128-cbc" (key_of bob) (ciphertext (out envelope))
              slot_bob [] (opening (repeat x00 32)) =
    (Aborted,
     {| world := world0;
        out := resize x00 (length (ciphertext (out envelope)) + 16) (repeat x00 32) |}).
Proof.
  split; [vm_compute; discriminate|].
  apply (@Open_iv_length_asserted provider "aes-128-cbc" aes_128_cbc (key_of bob)
           (ciphertext (out envelope)) slot_bob [] (opening (repeat x00 32))).
  - reflexivity.
  - vm_compute. discriminate.
Defined.



Lemma unknown_cipher_no_effect_witness :
  EVP_get_cipherbyname "rot13" = None /\
  Seal "rot13" (map key_of [alice_pub; bob_pub]) hello start =
    (Thrown (UnknownCipher "Envelope::Seal" "rot13"), start) /\
  Open_buffer "rot13" (key_of bob) (ciphertext (out envelope)) slot_bob
              (iv (out envelope)) (opening (repeat x00 32)) =
    (Thrown (UnknownCipher "Envelope::Open" "rot13"), opening (repeat x00 32)) /\
  Open_vector "rot13" (key_of bob) (ciphertext (out envelope)) slot_bob
              (iv (out envelope)) (opening (repeat x00 32)) =
    (Thrown (UnknownCipher "Envelope" "rot13"), opening (repeat x00 32)).
Proof.
  split; [reflexivity|].
  apply (@unknown_cipher_no_effect provider "rot13" (map key_of [alice_pub; bob_pub])
           hello (key_of bob) (ciphertext (out envelope)) slot_bob (iv (out envelope))
           start (opening (repeat x00 32))).
  - reflexivity.
  - discriminate.
Defined.

Lemma Open_vector_refines_Open_buffer_witness :
  length (repeat x00 32) =
    length (ciphertext (out envelope)) + EVP_CIPHER_block_size aes_128_cbc /\
  Open_vector_result "aes-128-cbc" (key_of bob) (ciphertext (out envelope)) slot_bob
                     (iv (out envelope)) {| world := world0; out := hello |} =
  Open_allocating_spec "aes-128-cbc" (key_of bob) (ciphertext (out envelope)) slot_bob
                       (iv (out envelope)) (repeat x00 32) world0.
Proof.
  split; [reflexivity|].
  apply (@Open_vector_refines_Open_buffer provider "aes-128-cbc" aes_128_cbc
           (key_of bob) (ciphertext (out envelope)) slot_bob (iv (out envelope))
           world0 hello (repeat x00 32)).
  - reflexivity.
  - reflexivity.
Defined.


Lemma Open_cipher_capacity_unchecked_witness :
  (let o := fst (Open_cipher aes_128_cbc (key_of bob) (ciphertext (out envelope_dawn))
                             (nth 1 (encrypted_keys (out envelope_dawn)) [])
                             (iv (out envelope_dawn)) (opening (repeat x00 48))) in
   o <> Undefined /\ o <> Aborted /\ forall n, o = Returned n -> n <= 48) /\
  Open_cipher aes_128_cbc (key_of bob) (ciphertext (out envelope_dawn))
              (nth 1 (encrypted_keys (out envelope_dawn)) [])
              (iv (out envelope_dawn)) (opening (repeat x00 8)) =
    (Undefined,
     {| world := logged world0 [call_CTX_new; call_OpenInit; call_OpenUpdate];
        out := repeat x00 8 |}).
Proof.
  destruct (@Open_cipher_capacity_unchecked provider aes_128_cbc (key_of bob)
              (ciphertext (out envelope_dawn))
              (nth 1 (encrypted_keys (out envelope_dawn)) [])
              (iv (out envelope_dawn)) toy_open_in_bounds eq_refl) as [Hbig Hsmall].
  split.
  - apply (Hbig (opening (repeat x00 48))). vm_compute. lia.
  - eapply (Hsmall (opening (repeat x00 8))).
    + reflexivity.
    + vm_compute. reflexivity.
    + discriminate.
    + vm_compute. reflexivity.
    + vm_compute. lia.
Defined.

End Examples.

(* ================================================================== *)
(** * Further properties of the envelope code *)
(* ================================================================== *)

Section MoreRuns.

Context {P : Provider}.

Lemma Seal_encrypt_run cipher pub_keys plaintext s :
  length (encrypted_keys (out s)) = length pub_keys ->
  Seal_encrypt cipher pub_keys plaintext s = Seal_summary cipher pub_keys plaintext s.
Proof.
  intros Hlen. destruct s as [[r cl] [k i c]].
  unfold Seal_encrypt, Seal_summary, logged, seal_calls, CryptoOperationFailed.
  unfold_run. cbn [world out rng calls encrypted_keys iv ciphertext] in *.
  destruct EVP_CIPHER_CTX_new as [ctx0|]; run_step; [| reflexivity].
  destruct (EVP_SealInit ctx0 cipher (map get_key pub_keys) r)
    as [[[[st ctx1] ek] ivb] rnd'] eqn:Hinit; run_step.
  destruct (write_each k ek) as [eks|] eqn:Hek; run_step;
    [| now rewrite <- !app_assoc].
  destruct (write_at i 0 ivb) as [ivv|] eqn:Hiv; run_step;
    [| now rewrite <- !app_assoc].
  destruct (Z.of_nat (length pub_keys) =? st)%Z; run_step;
    [| now rewrite <- !app_assoc].
  destruct (EVP_SealUpdate ctx1 plaintext) as [[st1 ctx2] c1] eqn:Hupd; run_step.
  destruct (write_at c 0 c1) as [ct1|] eqn:Hc1; run_step;
    [| now rewrite <- !app_assoc].
  destruct (1 =? st1)%Z; run_step; [| now rewrite <- !app_assoc].
  destruct (EVP_SealFinal ctx2) as [st2 c2] eqn:Hfin; run_step.
  destruct (write_at ct1 (length c1) c2) as [ct2|] eqn:Hc2; run_step;
    [| now rewrite <- !app_assoc].
  destruct (1 =? st2)%Z; run_step; [| now rewrite <- !app_assoc].
  destruct (write_each_Some _ _ _ Hek) as (Leks & Lek & _).
  rewrite for_resize_keys with (pre := []) (rest := eks);
    [| reflexivity | simpl; lia | reflexivity].
  cbn [world out rng calls encrypted_keys iv ciphertext with_keys app].
  destruct (write_at_twice _ _ _ _ _ Hc1 Hc2) as [Lc ->].
  assert (Lek' : length (map (@length Byte.byte) ek) <= length pub_keys)
    by (rewrite length_map; lia).
  rewrite (map_nth_seq _ _ Lek'), length_map, <- Hlen.
  rewrite (resize_all_written _ _ _ Hek).
  rewrite <- length_app, resize_prefix, <- !app_assoc.
  reflexivity.
Qed.

Lemma Seal_allocated_key_sizes cipher pub_keys plaintext s :
  map (@length Byte.byte)
      (encrypted_keys (out (Seal_allocated cipher pub_keys plaintext s))) =
  map (fun k => EVP_PKEY_size (get_key k)) pub_keys.
Proof.
  cbn [Seal_allocated out encrypted_keys].
  apply map_length_resize_all. now rewrite length_map, length_resize.
Qed.

Lemma Seal_allocated_iv cipher pub_keys plaintext s :
  length (iv (out (Seal_allocated cipher pub_keys plaintext s))) =
  EVP_CIPHER_iv_length cipher.
Proof. apply length_resize. Qed.

Lemma Seal_allocated_ciphertext cipher pub_keys plaintext s :
  length (ciphertext (out (Seal_allocated cipher pub_keys plaintext s))) =
  length plaintext + EVP_CIPHER_block_size cipher.
Proof. apply length_resize. Qed.

Lemma Seal_allocated_keys cipher pub_keys plaintext s :
  length (encrypted_keys (out (Seal_allocated cipher pub_keys plaintext s))) =
  length pub_keys.
Proof.
  pose proof (Seal_allocated_key_sizes cipher pub_keys plaintext s) as H.
  apply (f_equal (@length nat)) in H. now rewrite !length_map in H.
Qed.

(** [Seal] on a non-empty key list and a known cipher, written out. *)
Lemma Seal_run cipher_name cipher pub_keys plaintext s :
  pub_keys <> [] ->
  EVP_get_cipherbyname cipher_name = Some cipher ->
  Seal cipher_name pub_keys plaintext s =
  Seal_summary cipher pub_keys plaintext (Seal_allocated cipher pub_keys plaintext s).
Proof.
  intros Hne Hc. rewrite (Seal_prefix _ _ plaintext _ s Hne Hc).
  apply Seal_encrypt_run, Seal_allocated_keys.
Qed.

Lemma Seal_empty_keys cipher_name plaintext (s : St SealOut) :
  Seal cipher_name [] plaintext s = (Aborted, s).
Proof. reflexivity. Qed.

Lemma Seal_unknown cipher_name pub_keys plaintext (s : St SealOut) :
  pub_keys <> [] ->
  EVP_get_cipherbyname cipher_name = None ->
  Seal cipher_name pub_keys plaintext s =
  (Thrown (UnknownCipher "Envelope::Seal" cipher_name), s).
Proof.
  intros Hne Hc. unfold Seal. rewrite Hc. destruct pub_keys; [congruence|].
  reflexivity.
Qed.

(** Whether the stores of the provider fit depends on the sizes of the
    buffers only. *)
Lemma write_at_shape b1 b2 off src :
  length b1 = length b2 ->
  match write_at b1 off src, write_at b2 off src with
  | Some r1, Some r2 => length r1 = length r2
  | None, None => True
  | _, _ => False
  end.
Proof.
  intros H. destruct (write_at b1 off src) as [r1|] eqn:E1;
    destruct (write_at b2 off src) as [r2|] eqn:E2.
  - rewrite (write_at_length _ _ _ _ E1), (write_at_length _ _ _ _ E2). exact H.
  - apply write_at_Some in E1 as [L _]. unfold write_at in E2. rewrite <- H in E2.
    destruct (Nat.leb_spec (off + length src) (length b1)); [discriminate | lia].
  - apply write_at_Some in E2 as [L _]. unfold write_at in E1. rewrite H in E1.
    destruct (Nat.leb_spec (off + length src) (length b2)); [discriminate | lia].
  - exact I.
Qed.

Lemma write_each_shape b1 b2 srcs :
  map (@length Byte.byte) b1 = map (@length Byte.byte) b2 ->
  match write_each b1 srcs, write_each b2 srcs with
  | Some r1, Some r2 => map (@length Byte.byte) r1 = map (@length Byte.byte) r2
  | None, None => True
  | _, _ => False
  end.
Proof.
  revert b1 b2. induction srcs as [|x srcs IH]; intros b1 b2 H.
  - exact H.
  - destruct b1 as [|y1 b1], b2 as [|y2 b2]; try discriminate; [exact I|].
    cbn [map] in H. injection H as Hy Hb.
    cbn [write_each].
    pose proof (write_at_shape y1 y2 0 x Hy) as Hw.
    specialize (IH b1 b2 Hb).
    destruct (write_at y1 0 x), (write_at y2 0 x); try contradiction;
      destruct (write_each b1 srcs), (write_each b2 srcs); try contradiction;
      try exact I.
    cbn [map]. congruence.
Qed.

Lemma write_each_fits bufs srcs :
  Forall2 le (map (@length Byte.byte) srcs) (map (@length Byte.byte) bufs) ->
  exists r, write_each bufs srcs = Some r.
Proof.
  revert bufs. induction srcs as [|x srcs IH]; intros bufs F.
  - exists bufs. reflexivity.
  - destruct bufs as [|b bufs]; cbn [map] in F; inversion F; subst.
    cbn [write_each]. unfold write_at.
    destruct (Nat.leb_spec (0 + length x) (length b)); [|simpl in *; lia].
    destruct (IH bufs) as [r ->]; [assumption|]. eauto.
Qed.

End MoreRuns.

Section OpenFacts.

Context {P : Provider}.

(** What a run of [Open_cipher] stored fits the buffer, and a returned
    length is the number of bytes stored. *)
Lemma Open_summary_written cipher priv_key ciphertext_ encrypted_key iv_ capacity :
  let '(o, l, wr) :=
    Open_summary cipher priv_key ciphertext_ encrypted_key iv_ capacity in
  length wr <= capacity /\ run_calls open_steps o l /\
  (o = Aborted -> length iv_ <> EVP_CIPHER_iv_length cipher).
Proof.
  assert (K2 : exists k, 2 <= k <= length open_steps /\
                 [call_CTX_new; call_OpenInit; call_CTX_free] =
                 firstn k open_steps ++ [call_CTX_free])
    by (exists 2; cbn; split; [lia | reflexivity]).
  assert (K3 : exists k, 2 <= k <= length open_steps /\
                 [call_CTX_new; call_OpenInit; call_OpenUpdate; call_CTX_free] =
                 firstn k open_steps ++ [call_CTX_free])
    by (exists 3; cbn; split; [lia | reflexivity]).
  assert (K4 : exists k, 2 <= k <= length open_steps /\
                 [call_CTX_new; call_OpenInit; call_OpenUpdate; call_OpenFinal;
                  call_CTX_free] = firstn k open_steps ++ [call_CTX_free])
    by (exists 4; cbn; split; [lia | reflexivity]).
  assert (U3 : exists k, 2 <= k <= length open_steps /\
                 [call_CTX_new; call_OpenInit; call_OpenUpdate] = firstn k open_steps)
    by (exists 3; cbn; split; [lia | reflexivity]).
  assert (U4 : exists k, 2 <= k <= length open_steps /\
                 [call_CTX_new; call_OpenInit; call_OpenUpdate; call_OpenFinal] =
                 firstn k open_steps)
    by (exists 4; cbn; split; [lia | reflexivity]).
  unfold Open_summary.
  destruct (Nat.eqb_spec (length iv_) (EVP_CIPHER_iv_length cipher)) as [Hiv|Hiv];
    cbn [negb]; [| cbn [run_calls length]; repeat split; auto; lia].
  destruct EVP_CIPHER_CTX_new as [ctx0|] eqn:Hnew;
    [| cbn [run_calls length]; repeat split; auto; try lia; discriminate].
  destruct (EVP_OpenInit ctx0 cipher encrypted_key iv_ (get_key priv_key)) as [st ctx1].
  destruct (0 =? st)%Z;
    [cbn [run_calls length]; repeat split; auto; try lia; discriminate|].
  destruct (EVP_OpenUpdate ctx1 ciphertext_) as [[st1 ctx2] p1].
  destruct (Nat.leb_spec (length p1) capacity); cbn [negb];
    [| cbn [run_calls length]; repeat split; auto; try lia; discriminate].
  destruct (negb (1 =? st1)%Z);
    [cbn [run_calls]; repeat split; auto; discriminate|].
  destruct (EVP_OpenFinal ctx2) as [st2 p2].
  destruct (Nat.leb_spec (length p1 + length p2) capacity); cbn [negb];
    [| cbn [run_calls]; repeat split; auto; discriminate].
  destruct (negb (1 =? st2)%Z); cbn [run_calls]; rewrite length_app;
    repeat split; auto; discriminate.
Qed.



(** X3.  When [EVP_OpenFinal] fails (a padding check, say) after
    [EVP_OpenUpdate] has succeeded, [Open] throws [CryptoOperationFailed],
    and what the provider had decrypted by then stays with the caller: it is
    at the start of the sized buffer, and the vector of the allocating form
    keeps it too and is left at its allocated size, the ciphertext length
    plus one block. *)
Theorem Open_final_failure_keeps_partial_plaintext
    cipher_name cipher priv ciphertext_ encrypted_key iv_ (t : St bytes)
    ctx0 st ctx1 ctx2 p1 st2 p2 :
  EVP_get_cipherbyname cipher_name = Some cipher ->
  length iv_ = EVP_CIPHER_iv_length cipher ->
  EVP_CIPHER_CTX_new = Some ctx0 ->
  EVP_OpenInit ctx0 cipher encrypted_key iv_ (get_key priv) = (st, ctx1) ->
  st <> 0%Z ->
  EVP_OpenUpdate ctx1 ciphertext_ = (1%Z, ctx2, p1) ->
  EVP_OpenFinal ctx2 = (st2, p2) ->
  st2 <> 1%Z ->
  length p1 + length p2 <= length (out t) ->
  length p1 + length p2 <= length ciphertext_ + EVP_CIPHER_block_size cipher ->
  Open_buffer cipher_name priv ciphertext_ encrypted_key iv_ t =
    (Thrown CryptoOperationFailed,
     {| world := logged (world t) open_calls;
        out := (p1 ++ p2) ++ skipn (length p1 + length p2) (out t) |}) /\
  (let rv := Open_vector cipher_name priv ciphertext_ encrypted_key iv_ t in
   fst rv = Thrown CryptoOperationFailed /\
   firstn (length p1 + length p2) (out (snd rv)) = p1 ++ p2 /\
   length (out (snd rv)) = length ciphertext_ + EVP_CIPHER_block_size cipher).
Proof.
  intros Hc Hiv Hnew Hoi Hst Hou Hof Hst2 Hcap Hcapv.
  assert (Hsum : forall capacity, length p1 + length p2 <= capacity ->
            Open_summary cipher priv ciphertext_ encrypted_key iv_ capacity =
            (Thrown CryptoOperationFailed, open_calls, p1 ++ p2)).
  { intros capacity Hle. unfold Open_summary.
    rewrite Hiv, Nat.eqb_refl, Hnew, Hoi. cbn [negb].
    destruct (Z.eqb_spec 0 st); [congruence|].
    rewrite Hou, Z.eqb_refl, Hof.
    destruct (Nat.leb_spec (length p1) capacity); [|lia].
    destruct (Nat.leb_spec (length p1 + length p2) capacity); [|lia].
    cbn [negb]. destruct (Z.eqb_spec 1 st2); [congruence | reflexivity]. }
  split.
  - rewrite (Open_buffer_run _ cipher _ _ _ _ _ Hc), Open_cipher_run, (Hsum _ Hcap).
    unfold after_open. now rewrite length_app.
  - cbv zeta. rewrite (Open_vector_run _ cipher _ _ _ _ _ Hc), Open_cipher_run.
    cbn [out world]. rewrite length_resize, (Hsum _ Hcapv).
    cbn [fst snd after_open out]. split; [reflexivity|]. split.
    + rewrite <- length_app, firstn_app, Nat.sub_diag, firstn_all. cbn [firstn].
      now rewrite app_nil_r.
    + rewrite length_app, length_skipn, length_resize, length_app. lia.
Qed.



(** X10.  The size of the vector after the allocating form of [Open], for
    a known cipher: where the call returns, the vector is cut to the
    plaintext and is no longer than the ciphertext plus one block; on every
    other outcome it is left at the ciphertext length plus one block, whatever
    its size was before. *)
Theorem Open_vector_length
    cipher_name cipher priv ciphertext_ encrypted_key iv_ (t : St bytes) :
  EVP_get_cipherbyname cipher_name = Some cipher ->
  let r := Open_vector cipher_name priv ciphertext_ encrypted_key iv_ t in
  match fst r with
  | Returned _ =>
      length (out (snd r)) <= length ciphertext_ + EVP_CIPHER_block_size cipher
  | _ => length (out (snd r)) = length ciphertext_ + EVP_CIPHER_block_size cipher
  end.
Proof.
  intros Hc. cbv zeta.
  rewrite (Open_vector_run _ cipher _ _ _ _ _ Hc), Open_cipher_run.
  cbn [out world]. rewrite length_resize.
  pose proof (Open_summary_written cipher priv ciphertext_ encrypted_key iv_
                (length ciphertext_ + EVP_CIPHER_block_size cipher)) as H.
  destruct (Open_summary cipher priv ciphertext_ encrypted_key iv_
              (length ciphertext_ + EVP_CIPHER_block_size cipher))
    as [[o l] wr] eqn:Hsum.
  destruct H as (Hwr & _ & _).
  assert (L : length (wr ++ skipn (length wr)
                 (resize x00 (length ciphertext_ + EVP_CIPHER_block_size cipher) (out t)))
              = length ciphertext_ + EVP_CIPHER_block_size cipher)
    by (rewrite length_app, length_skipn, length_resize; lia).
  destruct o as [n|e| |]; cbn [fst snd after_open out]; try exact L.
  destruct (Open_summary_Returned _ _ _ _ _ _ _ _ _ Hsum) as (-> & Hn & _).
  now rewrite resize_prefix.
Qed.

End OpenFacts.

Section SealFacts.

Context {P : Provider}.

Lemma Seal_summary_calls cipher pub_keys plaintext (t : St SealOut) :
  let r := Seal_summary cipher pub_keys plaintext t in
  exists l,
    calls (world (snd r)) = calls (world t) ++ l /\
    run_calls seal_steps (fst r) l /\
    (~ In call_SealInit l -> rng (world (snd r)) = rng (world t)).
Proof.
  assert (K2 : exists k, 2 <= k <= length seal_steps /\
                 [call_CTX_new; call_SealInit; call_CTX_free] =
                 firstn k seal_steps ++ [call_CTX_free])
    by (exists 2; cbn; split; [lia | reflexivity]).
  assert (K3 : exists k, 2 <= k <= length seal_steps /\
                 [call_CTX_new; call_SealInit; call_SealUpdate; call_CTX_free] =
                 firstn k seal_steps ++ [call_CTX_free])
    by (exists 3; cbn; split; [lia | reflexivity]).
  assert (K4 : exists k, 2 <= k <= length seal_steps /\
                 seal_calls = firstn k seal_steps ++ [call_CTX_free])
    by (exists 4; cbn; split; [lia | reflexivity]).
  assert (U2 : exists k, 2 <= k <= length seal_steps /\
                 [call_CTX_new; call_SealInit] = firstn k seal_steps)
    by (exists 2; cbn; split; [lia | reflexivity]).
  assert (U3 : exists k, 2 <= k <= length seal_steps /\
                 [call_CTX_new; call_SealInit; call_SealUpdate] = firstn k seal_steps)
    by (exists 3; cbn; split; [lia | reflexivity]).
  assert (U4 : exists k, 2 <= k <= length seal_steps /\
                 [call_CTX_new; call_SealInit; call_SealUpdate; call_SealFinal] =
                 firstn k seal_steps)
    by (exists 4; cbn; split; [lia | reflexivity]).
  assert (In2 : forall l, In call_SealInit (call_CTX_new :: call_SealInit :: l))
    by (intros; right; left; reflexivity).
  cbv zeta. unfold Seal_summary.
  destruct EVP_CIPHER_CTX_new as [ctx0|] eqn:Hnew.
  2:{ eexists. cbn [fst snd world logged calls rng run_calls]. repeat split; auto. }
  destruct (EVP_SealInit ctx0 cipher (map get_key pub_keys) (rng (world t)))
    as [[[[st ctx1] ek] ivb] rnd'].
  destruct (write_each (encrypted_keys (out t)) ek) as [eks|];
    [| eexists; cbn [fst snd world logged calls rng run_calls];
       repeat split; auto; intros H; now contradiction H].
  destruct (write_at (iv (out t)) 0 ivb) as [ivv|];
    [| eexists; cbn [fst snd world logged calls rng run_calls];
       repeat split; auto; intros H; now contradiction H].
  destruct (negb (Z.of_nat (length pub_keys) =? st)%Z);
    [eexists; cbn [fst snd world logged calls rng run_calls];
     repeat split; auto; intros H; now contradiction H|].
  destruct (EVP_SealUpdate ctx1 plaintext) as [[st1 ctx2] c1].
  destruct (write_at (ciphertext (out t)) 0 c1) as [ct1|];
    [| eexists; cbn [fst snd world logged calls rng run_calls];
       repeat split; auto; intros H; now contradiction H].
  destruct (negb (1 =? st1)%Z);
    [eexists; cbn [fst snd world logged calls rng run_calls];
     repeat split; auto; intros H; now contradiction H|].
  destruct (EVP_SealFinal ctx2) as [st2 c2].
  destruct (write_at ct1 (length c1) c2) as [ct2|];
    [| eexists; cbn [fst snd world logged calls rng run_calls];
       repeat split; auto; intros H; now contradiction H].
  destruct (negb (1 =? st2)%Z);
    eexists; cbn [fst snd world logged calls rng run_calls];
    repeat split; auto; intros H; contradiction H; apply In2.
Qed.

(** X6.  The calls of [Seal] follow one protocol, and the context is
    released on every path but a store outside a buffer: a run that returns
    has called CTX_new, SealInit, SealUpdate, SealFinal and CTX_free, in this
    order; a run that throws has made no call (unknown cipher), or has failed
    to allocate the context, or has gone through the first steps and then
    CTX_free; an aborted run has made no call.  The random generator is
    touched by [EVP_SealInit] only. *)
Theorem Seal_calls_protocol cipher_name pub_keys plaintext (s : St SealOut) :
  let r := Seal cipher_name pub_keys plaintext s in
  exists l,
    calls (world (snd r)) = calls (world s) ++ l /\
    run_calls seal_steps (fst r) l /\
    (~ In call_SealInit l -> rng (world (snd r)) = rng (world s)).
Proof.
  cbv zeta.
  destruct pub_keys as [|k pub_keys].
  { rewrite Seal_empty_keys. exists []. cbn. now rewrite app_nil_r. }
  destruct (EVP_get_cipherbyname cipher_name) as [cipher|] eqn:Hc.
  - rewrite (Seal_run _ cipher) by (assumption || discriminate).
    apply (Seal_summary_calls cipher (k :: pub_keys) plaintext
             (Seal_allocated cipher (k :: pub_keys) plaintext s)).
  - rewrite Seal_unknown by (assumption || discriminate).
    exists []. cbn. rewrite app_nil_r. auto.
Qed.

Lemma keys_within (size : AsymKey -> nat) ek bufs pub_keys :
  map (@length Byte.byte) bufs = map size pub_keys ->
  Forall2 (fun e b : bytes => length e <= length b) ek (firstn (length ek) bufs) ->
  Forall2 (fun (e : bytes) k => length e <= size k)
          (ek ++ repeat [] (length pub_keys - length ek)) pub_keys.
Proof.
  revert bufs pub_keys. induction ek as [|e ek IH]; intros bufs pub_keys Hm F.
  - cbn [app length]. rewrite Nat.sub_0_r. clear.
    induction pub_keys as [|k pub_keys IHk]; cbn; [constructor|].
    constructor; [cbn; lia | exact IHk].
  - destruct bufs as [|b bufs]; cbn [length firstn] in F; inversion F; subst.
    destruct pub_keys as [|k pub_keys]; [discriminate|].
    cbn [map] in Hm. injection Hm as Hb Hm.
    cbn [app length Nat.sub]. constructor; [lia|].
    now apply (IH bufs).
Qed.

(** X7.  The sizes of what [Seal] returns, with any provider: one encrypted
    key per public key, each no longer than [EVP_PKEY_size] of its public
    key, an IV of the cipher's IV length, and a ciphertext no longer than
    the plaintext plus one block. *)
Theorem Seal_output_sizes cipher_name cipher pub_keys plaintext s s' :
  EVP_get_cipherbyname cipher_name = Some cipher ->
  Seal cipher_name pub_keys plaintext s = (Returned tt, s') ->
  Forall2 (fun (e : bytes) k => length e <= EVP_PKEY_size (get_key k))
          (encrypted_keys (out s')) pub_keys /\
  length (encrypted_keys (out s')) = length pub_keys /\
  length (iv (out s')) = EVP_CIPHER_iv_length cipher /\
  length (ciphertext (out s')) <= length plaintext + EVP_CIPHER_block_size cipher.
Proof.
  intros Hc Hseal.
  assert (Hne : pub_keys <> []).
  { intros ->. rewrite Seal_empty_keys in Hseal. discriminate. }
  rewrite (Seal_run _ cipher _ _ _ Hne Hc) in Hseal.
  pose proof (Seal_allocated_key_sizes cipher pub_keys plaintext s) as Hk.
  pose proof (Seal_allocated_iv cipher pub_keys plaintext s) as Hi.
  pose proof (Seal_allocated_ciphertext cipher pub_keys plaintext s) as Hct.
  revert Hseal. unfold Seal_summary.
  destruct EVP_CIPHER_CTX_new as [ctx0|]; [|discriminate].
  destruct (EVP_SealInit ctx0 cipher (map get_key pub_keys)
              (rng (world (Seal_allocated cipher pub_keys plaintext s))))
    as [[[[st ctx1] ek] ivb] rnd'].
  destruct (write_each (encrypted_keys (out (Seal_allocated cipher pub_keys plaintext s))) ek)
    as [eks|] eqn:Hek; [|discriminate].
  destruct (write_at (iv (out (Seal_allocated cipher pub_keys plaintext s))) 0 ivb)
    as [ivv|] eqn:Hiv; [|discriminate].
  destruct (negb (Z.of_nat (length pub_keys) =? st)%Z); [discriminate|].
  destruct (EVP_SealUpdate ctx1 plaintext) as [[st1 ctx2] c1].
  destruct (write_at (ciphertext (out (Seal_allocated cipher pub_keys plaintext s))) 0 c1)
    as [ct1|] eqn:Hc1; [|discriminate].
  destruct (negb (1 =? st1)%Z); [discriminate|].
  destruct (EVP_SealFinal ctx2) as [st2 c2].
  destruct (write_at ct1 (length c1) c2) as [ct2|] eqn:Hc2; [|discriminate].
  destruct (negb (1 =? st2)%Z); [discriminate|].
  intros [= <-]. cbn [out encrypted_keys iv ciphertext].
  destruct (write_each_Some _ _ _ Hek) as (_ & Lek & F).
  destruct (write_at_twice _ _ _ _ _ Hc1 Hc2) as [Lc _].
  assert (HF : Forall2 (fun (e : bytes) k => length e <= EVP_PKEY_size (get_key k))
                 (ek ++ repeat [] (length pub_keys - length ek)) pub_keys)
    by (apply (keys_within _ _ _ _ Hk F)).
  repeat split.
  - exact HF.
  - apply (Forall2_length HF).
  - now rewrite (write_at_length _ _ _ _ Hiv).
  - rewrite length_app. lia.
Qed.

(** X8.  [Seal] does not fail by itself: when the context is allocated, the
    three provider calls succeed, and what they store is within the sizes
    the buffers were given (each wrapped key within [EVP_PKEY_size], an IV of
    the IV length, a ciphertext within the plaintext length plus one block),
    [Seal] returns, and its outputs are what the provider produced. *)
Theorem Seal_succeeds
    cipher_name cipher pub_keys plaintext s ctx0 ctx1 ek ivb rnd' ctx2 c1 c2 :
  pub_keys <> [] ->
  EVP_get_cipherbyname cipher_name = Some cipher ->
  EVP_CIPHER_CTX_new = Some ctx0 ->
  EVP_SealInit ctx0 cipher (map get_key pub_keys) (rng (world s)) =
    (Z.of_nat (length pub_keys), ctx1, ek, ivb, rnd') ->
  Forall2 (fun (e : bytes) k => length e <= EVP_PKEY_size (get_key k)) ek pub_keys ->
  length ivb = EVP_CIPHER_iv_length cipher ->
  EVP_SealUpdate ctx1 plaintext = (1%Z, ctx2, c1) ->
  EVP_SealFinal ctx2 = (1%Z, c2) ->
  length c1 + length c2 <= length plaintext + EVP_CIPHER_block_size cipher ->
  Seal cipher_name pub_keys plaintext s =
    (Returned tt,
     {| world := {| rng := rnd'; calls := calls (world s) ++ seal_calls |};
        out := {| encrypted_keys := ek; iv := ivb; ciphertext := c1 ++ c2 |} |}).
Proof.
  intros Hne Hc Hnew Hinit HF Hiv Hupd Hfin Hlen.
  rewrite (Seal_run _ cipher _ _ _ Hne Hc).
  pose proof (Seal_allocated_key_sizes cipher pub_keys plaintext s) as Hk.
  pose proof (Seal_allocated_iv cipher pub_keys plaintext s) as Hi.
  pose proof (Seal_allocated_ciphertext cipher pub_keys plaintext s) as Hct.
  unfold Seal_summary.
  change (world (Seal_allocated cipher pub_keys plaintext s)) with (world s).
  rewrite Hnew, Hinit.
  destruct (write_each_fits
              (encrypted_keys (out (Seal_allocated cipher pub_keys plaintext s))) ek)
    as [eks Hek].
  { rewrite Hk. clear - HF. induction HF; cbn; constructor; assumption. }
  rewrite Hek.
  assert (Hwiv : write_at (iv (out (Seal_allocated cipher pub_keys plaintext s))) 0 ivb
                 = Some ivb).
  { unfold write_at. cbn [Nat.add firstn app]. rewrite Hi, Hiv, Nat.leb_refl.
    rewrite skipn_all2 by lia. now rewrite app_nil_r. }
  rewrite Hwiv, Z.eqb_refl. cbn [negb]. rewrite Hupd.
  assert (Hw1 : exists ct1,
             write_at (ciphertext (out (Seal_allocated cipher pub_keys plaintext s))) 0 c1
             = Some ct1 /\
             length ct1 = length plaintext + EVP_CIPHER_block_size cipher).
  { unfold write_at. cbn [Nat.add].
    destruct (Nat.leb_spec (length c1)
                (length (ciphertext (out (Seal_allocated cipher pub_keys plaintext s)))));
      [| lia].
    eexists. split; [reflexivity|].
    cbn [firstn app]. rewrite length_app, length_skipn. lia. }
  destruct Hw1 as (ct1 & -> & L1).
  rewrite Z.eqb_refl. cbn [negb]. rewrite Hfin.
  unfold write_at. rewrite L1.
  destruct (Nat.leb_spec (length c1 + length c2)
              (length plaintext + EVP_CIPHER_block_size cipher)); [| lia].
  rewrite Z.eqb_refl. cbn [negb]. unfold logged. cbn [rng calls].
  rewrite (Forall2_length HF), Nat.sub_diag, app_nil_r.
  reflexivity.
Qed.

(** X9.  What the output vectors held before the call does not matter to
    [Seal]: in one world, from any two sets of output vectors, it has the
    same outcome and leaves the same world, and where it returns, the same
    encrypted keys, IV and ciphertext. *)
Theorem Seal_ignores_prior_outputs
    cipher_name pub_keys plaintext (w : World) (o1 o2 : SealOut) :
  seal_init_complete ->
  let r1 := Seal cipher_name pub_keys plaintext {| world := w; out := o1 |} in
  let r2 := Seal cipher_name pub_keys plaintext {| world := w; out := o2 |} in
  fst r1 = fst r2 /\
  world (snd r1) = world (snd r2) /\
  (fst r1 = Returned tt -> out (snd r1) = out (snd r2)).
Proof.
  intros Hcomp. cbv zeta.
  destruct pub_keys as [|k0 pub_keys].
  { rewrite !Seal_empty_keys. cbn. repeat split. discriminate. }
  destruct (EVP_get_cipherbyname cipher_name) as [cipher|] eqn:Hc.
  2:{ rewrite !Seal_unknown by (assumption || discriminate). cbn.
      repeat split. discriminate. }
  assert (Hne : k0 :: pub_keys <> []) by discriminate.
  assert (Hfst : fst (Seal cipher_name (k0 :: pub_keys) plaintext {| world := w; out := o1 |})
                 = fst (Seal cipher_name (k0 :: pub_keys) plaintext {| world := w; out := o2 |})
                 /\
                 world (snd (Seal cipher_name (k0 :: pub_keys) plaintext
                               {| world := w; out := o1 |})) =
                 world (snd (Seal cipher_name (k0 :: pub_keys) plaintext
                               {| world := w; out := o2 |}))).
  { rewrite !(Seal_run _ cipher _ _ _ Hne Hc).
    unfold Seal_summary.
    change (world (Seal_allocated cipher (k0 :: pub_keys) plaintext
                     {| world := w; out := o1 |})) with w.
    change (world (Seal_allocated cipher (k0 :: pub_keys) plaintext
                     {| world := w; out := o2 |})) with w.
    set (a1 := out (Seal_allocated cipher (k0 :: pub_keys) plaintext
                      {| world := w; out := o1 |})) in *.
    set (a2 := out (Seal_allocated cipher (k0 :: pub_keys) plaintext
                      {| world := w; out := o2 |})) in *.
    assert (Sk : map (@length Byte.byte) (encrypted_keys a1) =
                 map (@length Byte.byte) (encrypted_keys a2))
      by (unfold a1, a2; now rewrite !Seal_allocated_key_sizes).
    assert (Si : length (iv a1) = length (iv a2))
      by (unfold a1, a2; now rewrite !Seal_allocated_iv).
    assert (Sc : length (ciphertext a1) = length (ciphertext a2))
      by (unfold a1, a2; now rewrite !Seal_allocated_ciphertext).
    clearbody a1 a2.
    destruct EVP_CIPHER_CTX_new as [ctx0|]; [| split; reflexivity].
    destruct (EVP_SealInit ctx0 cipher (map get_key (k0 :: pub_keys)) (rng w))
      as [[[[st ctx1] ek] ivb] rnd'].
    pose proof (write_each_shape _ _ ek Sk) as Wk.
    pose proof (write_at_shape _ _ 0 ivb Si) as Wi.
    destruct (write_each (encrypted_keys a1) ek) as [e1|],
             (write_each (encrypted_keys a2) ek) as [e2|]; try contradiction;
      [| split; reflexivity].
    destruct (write_at (iv a1) 0 ivb) as [i1|], (write_at (iv a2) 0 ivb) as [i2|];
      try contradiction; [| split; reflexivity].
    destruct (negb (Z.of_nat (length (k0 :: pub_keys)) =? st)%Z); [split; reflexivity|].
    destruct (EVP_SealUpdate ctx1 plaintext) as [[st1 ctx2] c1].
    pose proof (write_at_shape _ _ 0 c1 Sc) as Wc.
    destruct (write_at (ciphertext a1) 0 c1) as [t1|],
             (write_at (ciphertext a2) 0 c1) as [t2|]; try contradiction;
      [| split; reflexivity].
    destruct (negb (1 =? st1)%Z); [split; reflexivity|].
    destruct (EVP_SealFinal ctx2) as [st2 c2].
    pose proof (write_at_shape _ _ (length c1) c2 Wc) as Wf.
    destruct (write_at t1 (length c1) c2) as [u1|],
             (write_at t2 (length c1) c2) as [u2|]; try contradiction;
      [| split; reflexivity].
    destruct (negb (1 =? st2)%Z); split; reflexivity. }
  destruct Hfst as [Hfst Hw]. repeat split; [exact Hfst | exact Hw |].
  intros Hret.
  destruct (Seal cipher_name (k0 :: pub_keys) plaintext {| world := w; out := o1 |})
    as [x1 s1] eqn:E1.
  destruct (Seal cipher_name (k0 :: pub_keys) plaintext {| world := w; out := o2 |})
    as [x2 s2] eqn:E2.
  cbn [fst snd] in *. rewrite Hret in Hfst, E1. rewrite <- Hfst in E2.
  destruct (Seal_Returned_complete _ _ _ _ _ _ Hcomp Hc E1)
    as (ctx0 & ctx1 & ek & ivb & rnd' & ctx2 & c1 & c2
        & Hnew & Hinit & Hupd & Hfin & _ & _ & ->).
  destruct (Seal_Returned_complete _ _ _ _ _ _ Hcomp Hc E2)
    as (ctx0' & ctx1' & ek' & ivb' & rnd'' & ctx2' & c1' & c2'
        & Hnew' & Hinit' & Hupd' & Hfin' & _ & _ & ->).
  cbn [world out rng] in *.
  rewrite Hnew in Hnew'. injection Hnew' as <-.
  rewrite Hinit in Hinit'. injection Hinit' as <- <- <- <-.
  rewrite Hupd in Hupd'. injection Hupd' as <- <-.
  rewrite Hfin in Hfin'. injection Hfin' as <-.
  reflexivity.
Qed.

End SealFacts.

(* ================================================================== *)
(** * Further concrete runs *)
(* ================================================================== *)

Module MoreExamples.
Import Toy ToyFacts Samples.

Lemma envelope_dawn_sealed :
  Seal "aes-128-cbc" (map key_of [alice_pub; bob_pub]) dawn start =
  (Returned tt, envelope_dawn).
Proof. vm_compute. reflexivity. Qed.

Lemma Open_final_failure_keeps_partial_plaintext_witness :
  Open_buffer "aes-128-cbc" (key_of bob) tampered_dawn
              (nth 1 (encrypted_keys (out envelope_dawn)) [])
              (iv (out envelope_dawn)) (opening (repeat xff 48)) =
    (Thrown CryptoOperationFailed,
     {| world := logged world0 open_calls;
        out := (firstn 16 dawn ++ []) ++
               skipn (length (firstn 16 dawn) + length (@nil Byte.byte))
                     (repeat xff 48) |}) /\
  (let rv := Open_vector "aes-128-cbc" (key_of bob) tampered_dawn
                         (nth 1 (encrypted_keys (out envelope_dawn)) [])
                         (iv (out envelope_dawn)) (opening (repeat xff 48)) in
   fst rv = Thrown CryptoOperationFailed /\
   firstn (length (firstn 16 dawn) + length (@nil Byte.byte)) (out (snd rv)) =
     firstn 16 dawn ++ [] /\
   length (out (snd rv)) = length tampered_dawn + EVP_CIPHER_block_size aes_128_cbc).
Proof.
  eapply (@Open_final_failure_keeps_partial_plaintext provider "aes-128-cbc"
            aes_128_cbc (key_of bob) tampered_dawn
            (nth 1 (encrypted_keys (out envelope_dawn)) [])
            (iv (out envelope_dawn)) (opening (repeat xff 48))
            fresh_ctx _ _ _ (firstn 16 dawn) 0%Z []).
  - reflexivity.
  - reflexivity.
  - reflexivity.
  - vm_compute. reflexivity.
  - discriminate.
  - vm_compute. reflexivity.
  - vm_compute. reflexivity.
  - discriminate.
  - vm_compute. lia.
  - vm_compute. lia.
Defined.



Lemma Seal_output_sizes_witness :
  Seal "aes-128-cbc" (map key_of [alice_pub; bob_pub]) dawn start =
    (Returned tt, envelope_dawn) /\
  Forall2 (fun (e : bytes) k => length e <= EVP_PKEY_size (get_key k))
          (encrypted_keys (out envelope_dawn)) (map key_of [alice_pub; bob_pub]) /\
  length (encrypted_keys (out envelope_dawn)) =
    length (map key_of [alice_pub; bob_pub]) /\
  length (iv (out envelope_dawn)) = EVP_CIPHER_iv_length aes_128_cbc /\
  length (ciphertext (out envelope_dawn)) <=
    length dawn + EVP_CIPHER_block_size aes_128_cbc.
Proof.
  split; [exact envelope_dawn_sealed|].
  apply (@Seal_output_sizes provider "aes-128-cbc" aes_128_cbc
           (map key_of [alice_pub; bob_pub]) dawn start envelope_dawn).
  - reflexivity.
  - exact envelope_dawn_sealed.
Defined.

Lemma Seal_succeeds_witness :
  Seal "aes-128-cbc" (map key_of [alice_pub; bob_pub]) dawn start =
    (Returned tt,
     {| world := {| rng := rng (world envelope_dawn);
                    calls := calls (world start) ++ seal_calls |};
        out := {| encrypted_keys := encrypted_keys (out envelope_dawn);
                  iv := iv (out envelope_dawn);
                  ciphertext := firstn 16 (ciphertext (out envelope_dawn)) ++
                                skipn 16 (ciphertext (out envelope_dawn)) |} |}).
Proof.
  eapply (@Seal_succeeds provider "aes-128-cbc" aes_128_cbc
            (map key_of [alice_pub; bob_pub]) dawn start fresh_ctx _
            (encrypted_keys (out envelope_dawn)) (iv (out envelope_dawn))
            (rng (world envelope_dawn)) _
            (firstn 16 (ciphertext (out envelope_dawn)))
            (skipn 16 (ciphertext (out envelope_dawn)))).
  - discriminate.
  - reflexivity.
  - reflexivity.
  - vm_compute. reflexivity.
  - vm_compute. repeat constructor; lia.
  - reflexivity.
  - vm_compute. reflexivity.
  - vm_compute. reflexivity.
  - vm_compute. lia.
Defined.

Lemma Seal_ignores_prior_outputs_witness :
  fst (Seal "aes-128-cbc" (map key_of [alice_pub; bob_pub]) hello
         {| world := world0; out := empty_out |}) =
  fst (Seal "aes-128-cbc" (map key_of [alice_pub; bob_pub]) hello
         {| world := world0; out := used_out |}) /\
  world (snd (Seal "aes-128-cbc" (map key_of [alice_pub; bob_pub]) hello
                {| world := world0; out := empty_out |})) =
  world (snd (Seal "aes-128-cbc" (map key_of [alice_pub; bob_pub]) hello
                {| world := world0; out := used_out |})) /\
  (fst (Seal "aes-128-cbc" (map key_of [alice_pub; bob_pub]) hello
          {| world := world0; out := empty_out |}) = Returned tt ->
   out (snd (Seal "aes-128-cbc" (map key_of [alice_pub; bob_pub]) hello
               {| world := world0; out := empty_out |})) =
   out (snd (Seal "aes-128-cbc" (map key_of [alice_pub; bob_pub]) hello
               {| world := world0; out := used_out |}))).
Proof.
  apply (@Seal_ignores_prior_outputs provider "aes-128-cbc"
           (map key_of [alice_pub; bob_pub]) hello world0 empty_out used_out
           toy_seal_init_complete).
Defined.

Lemma Open_vector_length_witness :
  length (out (snd (Open_vector "aes-128-cbc" (key_of bob) tampered_dawn
                      (nth 1 (encrypted_keys (out envelope_dawn)) [])
                      (iv (out envelope_dawn)) (opening hello)))) =
  length tampered_dawn + EVP_CIPHER_block_size aes_128_cbc.
Proof.
  apply (@Open_vector_length provider "aes-128-cbc" aes_128_cbc (key_of bob)
           tampered_dawn (nth 1 (encrypted_keys (out envelope_dawn)) [])
           (iv (out envelope_dawn)) (opening hello) eq_refl).
Defined.

End MoreExamples.
